(** * classes-intro: the test runner (testhelper.py) and the Pulsar class
      (pulsar_solution.py)

    The development has two parts.  The first embeds the two Python modules:
    [TestHelper] follows testhelper.py (registry, listing, completer, prompt
    loop) and [PulsarSolution] follows the [Pulsar] class of
    pulsar_solution.py.  The second part states and proves the properties. *)

From Stdlib Require Import String Ascii List ZArith NArith Arith Bool Lia.
From Stdlib Require Import Field_theory Field QArith Qcanon PrimFloat.
Import ListNotations.

Close Scope Qc_scope.
Close Scope Q_scope.
Open Scope nat_scope.

Open Scope string_scope.

(* ================================================================== *)
(** * Part 1: the program *)
(* ================================================================== *)

(** ** Python built-ins used by the two modules *)

Module Py.

(** The two library routines whose behaviour the modules only consume:
    [textwrap.wrap] (default width) and the set of characters at which
    [splitlines] ends a line ([\n] and [\r] for byte strings; text strings
    add a few more). *)
Class Lib := {
  textwrap_wrap : string -> list string;
  line_boundary : ascii -> bool
}.

(** [sep.join(lst)] *)
Definition join (sep : string) (lst : list string) : string :=
  String.concat sep lst.

(** [s.startswith(text)] *)
Fixpoint startswith (s text : string) {struct text} : bool :=
  match text with
  | EmptyString => true
  | String a text' =>
      match s with
      | EmptyString => false
      | String b s' => Ascii.eqb a b && startswith s' text'
      end
  end.

(** [s.splitlines()[0]] for a non-empty [s]: everything before the first
    line boundary. *)
Fixpoint first_line {lib : Lib} (s : string) : string :=
  match s with
  | EmptyString => EmptyString
  | String c s' => if line_boundary c then EmptyString else String c (first_line s')
  end.

(** [s.partition(sep)] for a one-character separator: the text before the
    first occurrence, the separator, the text after it; when the separator
    does not occur, the whole string and two empty strings. *)
Fixpoint split_at (sep : ascii) (s : string) : option (string * string) :=
  match s with
  | EmptyString => None
  | String c s' =>
      if Ascii.eqb c sep then Some (EmptyString, s')
      else match split_at sep s' with
           | Some (h, t) => Some (String c h, t)
           | None => None
           end
  end.

Definition partition (s : string) (sep : ascii) : string * string * string :=
  match split_at sep s with
  | Some (h, t) => (h, String sep EmptyString, t)
  | None => (s, EmptyString, EmptyString)
  end.

(** [lst[i]] on a list: a negative index counts from the end; [None] stands
    for [IndexError]. *)
Definition getitem {A} (lst : list A) (i : Z) : option A :=
  if (0 <=? i)%Z then nth_error lst (Z.to_nat i)
  else if (0 <=? Z.of_nat (List.length lst) + i)%Z
       then nth_error lst (Z.to_nat (Z.of_nat (List.length lst) + i))
       else None.

(** [fill * n] *)
Fixpoint repeat_char (fill : ascii) (n : nat) : string :=
  match n with
  | O => EmptyString
  | S n' => String fill (repeat_char fill n')
  end.

(** [s.center(width, fill)]: CPython pads with
    [left = marg/2 + (marg & width & 1)] characters on the left and the rest
    on the right, and returns [s] itself when it is already wide enough. *)
Definition center (s : string) (width : nat) (fill : ascii) : string :=
  let len := String.length s in
  if (width <=? len)%nat then s
  else
    let marg := (width - len)%nat in
    let left := (Nat.div2 marg + (if Nat.odd marg && Nat.odd width then 1 else 0))%nat in
    repeat_char fill left ++ s ++ repeat_char fill (marg - left)%nat.

(** [repr(s)] of a Python 2 byte string, as [raw_input] returns them. *)
Fixpoint contains_char (c : ascii) (s : string) : bool :=
  match s with
  | EmptyString => false
  | String d s' => Ascii.eqb c d || contains_char c s'
  end.

Definition hex_digit (n : N) : ascii :=
  if (n <? 10)%N then ascii_of_N (48 + n) else ascii_of_N (87 + n).

Definition repr_char (quote c : ascii) : string :=
  let n := N_of_ascii c in
  if Ascii.eqb c quote || Ascii.eqb c "\"%char then String "\" (String c "")
  else if (n =? 9)%N then "\t"
  else if (n =? 10)%N then "\n"
  else if (n =? 13)%N then "\r"
  else if (n <? 32)%N || (127 <=? n)%N
       then String "\" (String "x" (String (hex_digit (n / 16)) (String (hex_digit (n mod 16)) "")))
  else String c "".

Fixpoint repr_body (quote : ascii) (s : string) : string :=
  match s with
  | EmptyString => EmptyString
  | String c s' => repr_char quote c ++ repr_body quote s'
  end.

Definition double_quote : ascii := "034".

Definition repr (s : string) : string :=
  let quote := if contains_char "'" s && negb (contains_char double_quote s)
               then double_quote else "'"%char in
  String quote (repr_body quote s ++ String quote "").

End Py.

(** ** testhelper.py *)

Module TestHelper.
Import Py.

(** A registered callable: a function object with its [__name__], its
    [__doc__] ([None] when it has no docstring) and an identity standing for
    its body.  Function objects are always true in a boolean context. *)
Record Test := {
  fn_name : string;
  fn_doc : option string;
  fn_id : nat
}.

(** [TESTS]: an [OrderedDict] from names to callables, kept in insertion
    order; assigning to a key already present replaces the value where the
    key stands. *)
Definition Registry := list (string * Test).

Fixpoint dict_get (tname : string) (tests : Registry) : option Test :=
  match tests with
  | [] => None
  | (k, v) :: rest => if String.eqb k tname then Some v else dict_get tname rest
  end.

Fixpoint dict_set (tname : string) (f : Test) (tests : Registry) : Registry :=
  match tests with
  | [] => [(tname, f)]
  | (k, v) :: rest =>
      if String.eqb k tname then (k, f) :: rest
      else (k, v) :: dict_set tname f rest
  end.

Definition keys (tests : Registry) : list string := map fst tests.

(** [register_test(f)]: the new registry and the returned object. *)
Definition register_test (f : Test) (tests : Registry) : Registry * Test :=
  let tname := snd (partition (fn_name f) "_") in
  (dict_set tname f tests, f).

(** Registering a sequence of functions at import time, first to last. *)
Fixpoint register_all (fs : list Test) (tests : Registry) : Registry :=
  match fs with
  | [] => tests
  | f :: fs' => register_all fs' (fst (register_test f tests))
  end.

(** What the program does to the outside, in order. *)
Inductive event :=
| Print (line : string)              (* one [print] call: a line on stdout *)
| Prompt (text : string)             (* [raw_input] showing its prompt *)
| Invoke (test : Test)               (* [test()]: a call with no arguments *)
| SetCompleter (names : list string) (* [TestsCompleter.setup]: readline *)
| ReadHistory (histfile : string)
| AtExitWriteHistory (histfile : string).

(** [if test.__doc__]: a docstring that is present and not empty. *)
Definition documented (test : Test) : bool :=
  match fn_doc test with
  | Some d => negb (String.eqb d "")
  | None => false
  end.

Definition doc_text (test : Test) : string :=
  match fn_doc test with Some d => d | None => "" end.

(** The generator [print_documented_tests]: walking the items it either
    prints a line or yields a name, in this order. *)
Inductive gen_step :=
| GPrint (line : string)
| GYield (tname : string).

Definition print_documented_tests {lib : Lib} (tests : Registry) : list gen_step :=
  map (fun item : string * Test =>
         let (tname, test) := item in
         if documented test
         then GPrint ("    " ++ tname ++ " - " ++ first_line (doc_text test))
         else GYield tname)
      tests.

Fixpoint gen_printed (g : list gen_step) : list event :=
  match g with
  | [] => []
  | GPrint line :: g' => Print line :: gen_printed g'
  | GYield _ :: g' => gen_printed g'
  end.

Fixpoint gen_yielded (g : list gen_step) : list string :=
  match g with
  | [] => []
  | GPrint _ :: g' => gen_yielded g'
  | GYield x :: g' => x :: gen_yielded g'
  end.

(** [pprint_list(lst, sep, prefix=prefix)] applied to a generator: [join]
    drains the generator, so whatever the generator prints comes out first;
    then the joined text is wrapped and printed line by line. *)
Definition pprint_list {lib : Lib} (lst : list gen_step) (sep prefix : string)
  : list event :=
  let lst_s := join sep (gen_yielded lst) in
  (gen_printed lst ++ map (fun line => Print (prefix ++ line)) (textwrap_wrap lst_s))%list.

Definition pprint_tests {lib : Lib} (tests : Registry) : list event :=
  let undoc := print_documented_tests tests in
  pprint_list undoc ", " "    ".

(** [TestsCompleter] *)
Record TestsCompleter := {
  self_tests : list string;
  self_matches : list string
}.

Definition TestsCompleter_init (tests : Registry) : TestsCompleter :=
  {| self_tests := keys tests; self_matches := keys tests |}.

(** [complete(text, state)]: the answer ([None] is Python's [None]) and the
    completer afterwards. *)
Definition complete (self : TestsCompleter) (text : string) (state : Z)
  : option string * TestsCompleter :=
  let self' :=
    if (state =? 0)%Z
    then {| self_tests := self_tests self;
            self_matches := filter (fun tname => startswith tname text) (self_tests self) |}
    else self in
  (getitem (self_matches self') state, self').

(** Successive calls with one text and the given states, as readline makes
    them: the answers in order and the completer afterwards. *)
Fixpoint complete_calls (self : TestsCompleter) (text : string) (states : list Z)
  : list (option string) * TestsCompleter :=
  match states with
  | [] => ([], self)
  | st :: rest =>
      let (r, self1) := complete self text st in
      let (rs, self2) := complete_calls self1 text rest in
      (r :: rs, self2)
  end.

(** The states [0, 1, ..., k]. *)
Definition states_upto (k : nat) : list Z := map Z.of_nat (seq 0 (S k)).

Definition setup (histfile : string) (tests : Registry) : list event :=
  [SetCompleter (keys tests); ReadHistory histfile; AtExitWriteHistory histfile].

(** One item of the input stream as [raw_input] sees it.  A stream that has
    run out behaves as end of input. *)
Inductive input :=
| Line (text : string)
| EndOfFile
| KeyboardInterrupt.

(** How [test_main] ends: it returns from inside the loop, or its last
    statement is the call of the chosen test. *)
Inductive outcome :=
| Returned
| Called (test : Test).

(** The [while not test] loop.  It yields what was printed and, when it is
    left with a test, the line entered and the test; [None] is the [return]
    taken on [EOFError] or [KeyboardInterrupt]. *)
Fixpoint prompt_loop (tests : Registry) (inp : list input)
  : list event * option (string * Test) :=
  match inp with
  | Line tname :: rest =>
      match dict_get tname tests with
      | Some test => ([Prompt "Your choice: "], Some (tname, test))
      | None =>
          let (out, r) := prompt_loop tests rest in
          (Prompt "Your choice: " :: Print "Invalid test name. Please try again" :: out, r)
      end
  | _ => ([Prompt "Your choice: "; Print ""], None)
  end.

Definition banner (tname : string) : string :=
  center (" Running test " ++ repr tname ++ " ") 80 "-".

Definition test_main {lib : Lib} (tests : Registry) (inp : list input)
  : list event * outcome :=
  let start := (setup ".thhist" tests ++ Print "Available tests:" :: pprint_tests tests)%list in
  match prompt_loop tests inp with
  | (out, None) => ((start ++ out)%list, Returned)
  | (out, Some (tname, test)) =>
      ((start ++ out ++ [Print (banner tname); Print ""; Invoke test])%list, Called test)
  end.

(** Observations on a trace. *)
Definition is_invoke (e : event) : bool :=
  match e with Invoke _ => true | _ => false end.

Definition is_print_of (line : string) (e : event) : bool :=
  match e with Print l => String.eqb l line | _ => false end.

Definition invoked (tr : list event) : list Test :=
  flat_map (fun e => match e with Invoke t => [t] | _ => [] end) tr.

Definition count_printed (line : string) (tr : list event) : nat :=
  List.length (filter (is_print_of line) tr).

(** The events that follow the first call of a test. *)
Fixpoint after_invoke (tr : list event) : list event :=
  match tr with
  | [] => []
  | Invoke _ :: rest => rest
  | _ :: rest => after_invoke rest
  end.

(** [needle] occurs in [s]. *)
Fixpoint substring_of (needle s : string) : bool :=
  startswith s needle ||
  match s with
  | EmptyString => false
  | String _ s' => substring_of needle s'
  end.

(** The names among [names] that start with [text], in the order of
    [names]. *)
Definition matching (names : list string) (text : string) : list string :=
  filter (fun tname => startswith tname text) names.

(** The key under which [register_test] files a function. *)
Definition test_key (f : Test) : string := snd (partition (fn_name f) "_").

(** Keys in the order in which they were first registered. *)
Definition add_key (ks : list string) (k : string) : list string :=
  if existsb (String.eqb k) ks then ks else (ks ++ [k])%list.

Definition registration_order (fs : list Test) : list string :=
  fold_left add_key (map test_key fs) [].

(** The two groups of the listing. *)
Definition documented_lines {lib : Lib} (tests : Registry) : list string :=
  map (fun item : string * Test =>
         "    " ++ fst item ++ " - " ++ first_line (doc_text (snd item)))
      (filter (fun item : string * Test => documented (snd item)) tests).

Definition undocumented_names (tests : Registry) : list string :=
  map fst (filter (fun item : string * Test => negb (documented (snd item))) tests).

(** What [test_main] does before it prompts, and what one rejected line
    adds. *)
Definition menu {lib : Lib} (tests : Registry) : list event :=
  (setup ".thhist" tests ++ Print "Available tests:" :: pprint_tests tests)%list.

Definition retry_message : string := "Invalid test name. Please try again".

Definition retries (bad : list string) : list event :=
  flat_map (fun _ : string => [Prompt "Your choice: "; Print retry_message]) bad.

(** The loop stops at this point of the input without a line to look up. *)
Definition no_line (inp : list input) : bool :=
  match inp with
  | Line _ :: _ => false
  | _ => true
  end.

(** Names that [repr] leaves as they are between single quotes: printable
    ASCII without quote or backslash. *)
Definition plain_char (c : ascii) : bool :=
  let n := N_of_ascii c in
  (32 <=? n)%N && (n <? 127)%N && negb (Ascii.eqb c "'") && negb (Ascii.eqb c "\").

Fixpoint plain (s : string) : bool :=
  match s with
  | EmptyString => true
  | String c s' => plain_char c && plain s'
  end.

(** A stand-in for [textwrap.wrap] on a text that fits on one line, and the
    line boundaries of byte strings, for running the definitions. *)
Definition one_line_lib : Lib :=
  {| textwrap_wrap := fun s => if String.eqb s "" then [] else [s];
     line_boundary := fun c => Ascii.eqb c "010" || Ascii.eqb c "013" |}.

(** The functions pulsar_solution.py registers when it is imported, in the
    order of the file, and the registry they leave. *)
Definition mk_test (n : nat) (fname doc : string) : Test :=
  {| fn_name := fname; fn_doc := Some doc; fn_id := n |}.

Definition solution_tests : list Test :=
  [ mk_test 0 "test_class" "Check if there is a Pulsar class";
    mk_test 1 "test_instance" "Try to create a Pulsar instance";
    mk_test 2 "test_attribute" "Try to add a 'name' attribute to a Pulsar instance";
    mk_test 3 "test_class_attribute" "Check that the Pulsar class now has a 'name' attribute";
    mk_test 4 "test_prettyprint" "Try to call a method";
    mk_test 5 "test_constructor" "Try to use the Pulsar constructor";
    mk_test 6 "test_repr" "Try to show a textual version of a Pulsar object";
    mk_test 7 "test_property" "Try out the properties of the Pulsar class";
    mk_test 8 "test_classmethod" "Try the from_catalog class method";
    mk_test 9 "test_full" "Perform a full test" ].

Definition TESTS : Registry := register_all solution_tests [].

(** Counting the prompts of a trace. *)
Definition is_prompt (e : event) : bool :=
  match e with Prompt _ => true | _ => false end.

Definition count_prompts (tr : list event) : nat :=
  List.length (filter is_prompt tr).

(** The function registered last under [k] among [fs]. *)
Definition latest_for (k : string) (fs : list Test) : option Test :=
  find (fun f => String.eqb (test_key f) k) (rev fs).

End TestHelper.

(** ** pulsar_solution.py *)

Module PulsarSolution.
Import Py.

(** The arithmetic the class asks of its period values (astropy quantities
    in the exercises): the class itself is written against the operators
    only. *)
Class Arith (F : Type) := {
  f0 : F;
  f1 : F;
  fadd : F -> F -> F;
  fmul : F -> F -> F;
  fsub : F -> F -> F;
  fopp : F -> F;
  fdiv : F -> F -> F;
  finv : F -> F
}.

(** [x ** n] for a literal exponent. *)
Definition power {F} {ar : Arith F} (x : F) (n : N) : F := pow_N f1 fmul x n.

(** [C.SkyCoord(ra=..., dec=..., frame=...)] *)
Record SkyCoord (A : Type) := {
  ra : A;
  dec : A;
  frame : string
}.
Arguments ra {A}.
Arguments dec {A}.
Arguments frame {A}.

Record Pulsar (F A : Type) := {
  name : string;
  coords : SkyCoord A;
  period : F;
  period_derivative : F
}.
Arguments name {F A}.
Arguments coords {F A}.
Arguments period {F A}.
Arguments period_derivative {F A}.

(** One row of the catalog, with the columns the class reads. *)
Record Row (F A : Type) := {
  NAME : string;
  PSRJ : string;
  RAJ : A;
  DECJ : A;
  P0 : F;
  P1 : F
}.
Arguments NAME {F A}.
Arguments PSRJ {F A}.
Arguments RAJ {F A}.
Arguments DECJ {F A}.
Arguments P0 {F A}.
Arguments P1 {F A}.

Definition Table (F A : Type) := list (Row F A).

(** [T.Table.read(fname)]: the table the file holds, or [None] when the
    reader raises. *)
Class TableReader (F A : Type) := {
  Table_read : string -> option (Table F A)
}.

Inductive exn :=
| ValueError (msg : string)
| TypeError
| ReadError (fname : string).

(** Calls of the table reader, in order, with whether a table came back. *)
Inductive io_event :=
| TableRead (fname : string) (ok : bool).

(** The class attributes that change: the cached [catalog], and next to it
    the record of reader calls made so far. *)
Record ClassState (F A : Type) := {
  catalog : option (Table F A);
  io_log : list io_event
}.
Arguments catalog {F A}.
Arguments io_log {F A}.

Definition default_catalog : string := "atnf.xml".

(** [column == name] on a string column, element by element.  The column
    is a numpy array of fixed-width strings padded with NUL characters, and
    numpy compares two strings without regard to NULs at their ends. *)
Definition NUL : ascii := "000".

Fixpoint rstrip_nul (s : string) : string :=
  match s with
  | EmptyString => EmptyString
  | String c s' =>
      match rstrip_nul s' with
      | EmptyString => if Ascii.eqb c NUL then EmptyString else String c EmptyString
      | String _ _ as r => String c r
      end
  end.

Definition np_equal (cell name : string) : bool :=
  String.eqb (rstrip_nul cell) (rstrip_nul name).

Section PulsarClass.
Context {F A : Type} {ar : Arith F} {rd : TableReader F A}.

(** [Pulsar.__init__] *)
Definition Pulsar_init (name : string) (coords : SkyCoord A) (period : F)
    (period_derivative : option F) : Pulsar F A :=
  {| name := name;
     coords := coords;
     period := period;
     period_derivative :=
       match period_derivative with
       | Some pd => pd
       | None => f0
       end |}.

(** The [frequency] property and its setter. *)
Definition frequency (self : Pulsar F A) : F :=
  fdiv f1 (period self).

Definition set_frequency (self : Pulsar F A) (freq : F) : Pulsar F A :=
  {| name := name self;
     coords := coords self;
     period := fdiv f1 freq;
     period_derivative := period_derivative self |}.

(** The [frequency_derivative] property and its setter. *)
Definition frequency_derivative (self : Pulsar F A) : F :=
  fdiv (fopp (period_derivative self)) (power (period self) 2).

Definition set_frequency_derivative (self : Pulsar F A) (fdot : F) : Pulsar F A :=
  {| name := name self;
     coords := coords self;
     period := period self;
     period_derivative := fdiv (fopp fdot) (power (frequency self) 2) |}.

(** [read_catalog]: the exception raised, if any, and the class afterwards. *)
Definition read_catalog (cls : ClassState F A) (fname : string)
  : option exn * ClassState F A :=
  match Table_read fname with
  | Some t =>
      (None, {| catalog := Some t;
                io_log := (io_log cls ++ [TableRead fname true])%list |})
  | None =>
      (Some (ReadError fname),
       {| catalog := catalog cls;
          io_log := (io_log cls ++ [TableRead fname false])%list |})
  end.

(** [from_catalog_row(row, name)] *)
Definition from_catalog_row (row : Row F A) (name : option string) : Pulsar F A :=
  let name := match name with
              | None => NAME row
              | Some n => n
              end in
  let coords := {| ra := RAJ row; dec := DECJ row; frame := "icrs" |} in
  Pulsar_init name coords (P0 row) (Some (P1 row)).

(** The rows selected by
    [np.where((catalog['NAME'] == name) | (catalog['PSRJ'] == name))]. *)
Definition matching_rows (t : Table F A) (name : string) : Table F A :=
  filter (fun row => np_equal (NAME row) name || np_equal (PSRJ row) name) t.

(** [from_catalog(name)]: the pulsar or the exception raised, and the class
    afterwards. *)
Definition from_catalog (cls : ClassState F A) (name : string)
  : (exn + Pulsar F A) * ClassState F A :=
  let (raised, cls1) :=
    match catalog cls with
    | None => read_catalog cls default_catalog
    | Some _ => (None, cls)
    end in
  match raised with
  | Some e => (inl e, cls1)
  | None =>
      match catalog cls1 with
      | None => (inl TypeError, cls1)
      | Some t =>
          match matching_rows t name with
          | [] => (inl (ValueError ("Pulsar " ++ repr name ++ " not found")), cls1)
          | row :: _ => (inr (from_catalog_row row (Some name)), cls1)
          end
      end
  end.

(** A sequence of lookups, one after the other on the same class. *)
Fixpoint lookups (cls : ClassState F A) (names : list string)
  : list (exn + Pulsar F A) * ClassState F A :=
  match names with
  | [] => ([], cls)
  | n :: rest =>
      let (r, cls1) := from_catalog cls n in
      let (rs, cls2) := lookups cls1 rest in
      (r :: rs, cls2)
  end.

End PulsarClass.

(** Reader calls that loaded a table. *)
Definition loads (log : list io_event) : nat :=
  List.length (filter (fun e => match e with TableRead _ ok => ok end) log).

(** Exact rational arithmetic, for running the definitions. *)
Definition Qc_arith : Arith Qc :=
  {| f0 := 0%Qc; f1 := 1%Qc; fadd := Qcplus; fmul := Qcmult; fsub := Qcminus;
     fopp := Qcopp; fdiv := Qcdiv; finv := Qcinv |}.

(** A two-row catalog in the layout of the ATNF table, and a reader that
    finds it under the default file name only. *)
Definition crab_row : Row Qc string :=
  {| NAME := "B0531+21"; PSRJ := "J0534+2200";
     RAJ := "05:34:31.973"; DECJ := "+22:00:52.06";
     P0 := Q2Qc (333924123 # 10000000000); P1 := Q2Qc (4 # 10000000000000) |}.

Definition j1944_row : Row Qc string :=
  {| NAME := "J1944+2236"; PSRJ := "J1944+2236";
     RAJ := "19:44:00.3"; DECJ := "+22:36:41";
     P0 := Q2Qc (36 # 10000); P1 := Q2Qc (0 # 1) |}.

Definition sample_catalog : Table Qc string := [crab_row; j1944_row].

Definition sample_reader : TableReader Qc string :=
  {| Table_read := fun fname =>
       if String.eqb fname default_catalog then Some sample_catalog else None |}.

(** The laws of a field on the class's arithmetic. *)
Definition field_laws {F} (ar : Arith F) : Prop :=
  field_theory f0 f1 fadd fmul fsub fopp fdiv finv (@eq F).

(** Searching a table for an identifier: the first row, in the order of the
    table, whose NAME or PSRJ compares equal to the identifier. *)
Definition has_id {F A} (id : string) (row : Row F A) : bool :=
  np_equal (NAME row) id || np_equal (PSRJ row) id.

(** Two strings that become the same once each is padded with enough NUL
    characters, and a row that carries an identifier in this sense in its
    NAME or PSRJ column. *)
Definition same_up_to_nuls (a b : string) : Prop :=
  exists m n : nat, a ++ repeat_char NUL m = b ++ repeat_char NUL n.

Definition carries {F A} (id : string) (row : Row F A) : Prop :=
  same_up_to_nuls (NAME row) id \/ same_up_to_nuls (PSRJ row) id.




Definition search {F A} {ar : Arith F} (t : Table F A) (id : string)
  : exn + Pulsar F A :=
  match find (has_id id) t with
  | Some row => inr (from_catalog_row row (Some id))
  | None => inl (ValueError ("Pulsar " ++ repr id ++ " not found"))
  end.

End PulsarSolution.

(* ================================================================== *)
(** * Part 2: properties *)
(* ================================================================== *)

Module TestHelperProps.
Import Py TestHelper.

(** ** Lists and strings *)

Lemma getitem_of_nat {A} (lst : list A) (n : nat) :
  getitem lst (Z.of_nat n) = nth_error lst n.
Proof.
  unfold getitem.
  destruct (Z.leb_spec 0 (Z.of_nat n)) as [_ | Hneg]; [| lia].
  now rewrite Nat2Z.id.
Qed.

Lemma of_nat_succ_nonzero (n : nat) : (Z.of_nat (S n) =? 0)%Z = false.
Proof. apply Z.eqb_neq. lia. Qed.

Lemma nth_error_exhausted {A} (l : list A) (k : nat) :
  List.length l <= k -> nth_error l k = None.
Proof. apply nth_error_None. Qed.

(** ** The completer *)

Lemma complete_first (self : TestsCompleter) (text : string) :
  complete self text 0 =
  (nth_error (matching (self_tests self) text) 0,
   {| self_tests := self_tests self;
      self_matches := matching (self_tests self) text |}).
Proof. reflexivity. Qed.

Lemma complete_next (self : TestsCompleter) (text : string) (n : nat) :
  complete self text (Z.of_nat (S n)) = (nth_error (self_matches self) (S n), self).
Proof.
  unfold complete. rewrite of_nat_succ_nonzero.
  now rewrite getitem_of_nat.
Qed.

Lemma complete_calls_next (self : TestsCompleter) (text : string) (start len : nat) :
  complete_calls self text (map Z.of_nat (seq (S start) len)) =
  (map (nth_error (self_matches self)) (seq (S start) len), self).
Proof.
  revert start. induction len as [| len IH]; intro start; [reflexivity |].
  cbn [seq map complete_calls].
  rewrite complete_next, IH. reflexivity.
Qed.

Lemma complete_calls_upto (self : TestsCompleter) (text : string) (k : nat) :
  complete_calls self text (states_upto k) =
  (map (nth_error (matching (self_tests self) text)) (seq 0 (S k)),
   {| self_tests := self_tests self;
      self_matches := matching (self_tests self) text |}).
Proof.
  unfold states_upto. cbn [seq map complete_calls].
  rewrite complete_first, complete_calls_next. reflexivity.
Qed.

Lemma last_map_seq {A} (f : nat -> A) (k : nat) (d : A) :
  last (map f (seq 0 (S k))) d = f k.
Proof.
  rewrite seq_S, map_app. cbn [map]. rewrite last_last. reflexivity.
Qed.

(** C1: called with states 0..k on one prefix, the completer answers with
    the registered names that start with the prefix, in registration order,
    one per call, so the call with state k gives the (k+1)-th of them; once
    they are used up the answer is [None]; and whatever was asked before, a
    query that starts at state 0 on a new prefix begins again at the first
    match. *)
Theorem complete_enumerates_matches
    (tests : Registry) (prior : list string) (text : string) (k : nat) :
  let self := {| self_tests := keys tests; self_matches := prior |} in
  let found := matching (keys tests) text in
  let answers := fst (complete_calls self text (states_upto k)) in
  answers = map (nth_error found) (seq 0 (S k)) /\
  last answers None = nth_error found k /\
  (forall j : nat,
      last (fst (complete_calls self text (states_upto (List.length found + j)))) None
      = None) /\
  (forall (text0 : string) (k0 : nat),
      let before := snd (complete_calls (TestsCompleter_init tests) text0 (states_upto k0)) in
      fst (complete_calls before text (states_upto k))
      = map (nth_error found) (seq 0 (S k))).
Proof.
  cbn zeta. repeat split.
  - rewrite complete_calls_upto. reflexivity.
  - rewrite complete_calls_upto. cbn [fst self_tests].
    apply last_map_seq.
  - intro j. rewrite complete_calls_upto. cbn [fst self_tests].
    rewrite last_map_seq. apply nth_error_exhausted.
    unfold matching. lia.
  - intros text0 k0.
    rewrite (complete_calls_upto (TestsCompleter_init tests)). cbn [snd].
    rewrite complete_calls_upto. reflexivity.
Qed.

(** ** The registry *)

Lemma existsb_eqb_cons (k k0 : string) (ks : list string) :
  existsb (String.eqb k) (k0 :: ks) = String.eqb k0 k || existsb (String.eqb k) ks.
Proof. cbn [existsb]. now rewrite String.eqb_sym. Qed.

Lemma keys_dict_set (tname : string) (f : Test) (tests : Registry) :
  keys (dict_set tname f tests) = add_key (keys tests) tname.
Proof.
  unfold add_key, keys.
  induction tests as [| [k v] rest IH]; [reflexivity |].
  cbn [dict_set map fst]. rewrite existsb_eqb_cons.
  destruct (String.eqb k tname); cbn [orb map fst]; [reflexivity |].
  rewrite IH. now destruct (existsb (String.eqb tname) (map fst rest)).
Qed.

Lemma keys_register_all (fs : list Test) (tests : Registry) :
  keys (register_all fs tests) = fold_left add_key (map test_key fs) (keys tests).
Proof.
  revert tests. induction fs as [| f fs IH]; intro tests; [reflexivity |].
  cbn [register_all map fold_left]. rewrite IH.
  unfold register_test. cbn [fst]. now rewrite keys_dict_set.
Qed.

Lemma dict_get_set_same (tname : string) (f : Test) (tests : Registry) :
  dict_get tname (dict_set tname f tests) = Some f.
Proof.
  induction tests as [| [k v] rest IH]; cbn [dict_set dict_get].
  - now rewrite String.eqb_refl.
  - destruct (String.eqb k tname) eqn:E; cbn [dict_get]; rewrite E; auto.
Qed.

Lemma dict_get_set_other (tname other : string) (f : Test) (tests : Registry) :
  String.eqb tname other = false ->
  dict_get other (dict_set tname f tests) = dict_get other tests.
Proof.
  intro Hne.
  induction tests as [| [k v] rest IH]; cbn [dict_set dict_get].
  - now rewrite Hne.
  - destruct (String.eqb k tname) eqn:E; cbn [dict_get].
    + apply String.eqb_eq in E. subst k. now rewrite Hne.
    + now rewrite IH.
Qed.

(** ** The listing *)

Lemma pprint_tests_groups {lib : Lib} (tests : Registry) :
  gen_printed (print_documented_tests tests) = map Print (documented_lines tests) /\
  gen_yielded (print_documented_tests tests) = undocumented_names tests.
Proof.
  unfold print_documented_tests, documented_lines, undocumented_names.
  induction tests as [| [tname test] rest [IHp IHy]]; [split; reflexivity |].
  cbn [map filter snd fst].
  destruct (documented test); cbn [negb map gen_printed gen_yielded fst snd];
    rewrite IHp, IHy; split; reflexivity.
Qed.

(** C5: the listing prints one line per documented entry, the name with the
    first line of its description, in the order of the registry, and only
    then the names of the entries without description, joined, wrapped and
    indented; after any sequence of registrations the order of the registry
    is the order in which the names were first registered. *)
Theorem pprint_tests_documented_then_undocumented
    {lib : Lib} (fs : list Test) (tests : Registry) :
  pprint_tests tests =
    (map Print (documented_lines tests) ++
     map (fun line => Print ("    " ++ line))
         (textwrap_wrap (join ", " (undocumented_names tests))))%list /\
  keys (register_all fs []) = registration_order fs /\
  pprint_tests (register_all fs []) =
    (map Print (documented_lines (register_all fs [])) ++
     map (fun line => Print ("    " ++ line))
         (textwrap_wrap (join ", " (undocumented_names (register_all fs [])))))%list.
Proof.
  assert (Hgen : forall r : Registry,
    pprint_tests r =
    (map Print (documented_lines r) ++
     map (fun line => Print ("    " ++ line))
         (textwrap_wrap (join ", " (undocumented_names r))))%list).
  { intro r. unfold pprint_tests, pprint_list.
    destruct (pprint_tests_groups r) as [-> ->]. reflexivity. }
  split; [apply Hgen |]. split; [| apply Hgen].
  apply keys_register_all.
Qed.

Lemma split_at_absent (sep : ascii) (s : string) :
  contains_char sep s = false -> split_at sep s = None.
Proof.
  induction s as [| c s IH]; [reflexivity |].
  cbn [contains_char split_at]. rewrite Ascii.eqb_sym.
  destruct (Ascii.eqb c sep); cbn [orb]; [discriminate |].
  intro Hs. now rewrite IH.
Qed.

Lemma split_at_first (sep : ascii) (head tail : string) :
  contains_char sep head = false ->
  split_at sep (head ++ String sep tail) = Some (head, tail).
Proof.
  induction head as [| c head IH]; cbn [contains_char append split_at].
  - now rewrite Ascii.eqb_refl.
  - rewrite Ascii.eqb_sym.
    destruct (Ascii.eqb c sep); cbn [orb]; [discriminate |].
    intro Hs. now rewrite IH.
Qed.

(** C9: [register_test] files the function under what follows the first
    underscore of its name, or under the empty string when the name has no
    underscore, and hands the function back as it is. *)
Theorem register_test_key (f : Test) (tests : Registry) (key : string) :
  (exists head : string,
      contains_char "_" head = false /\ fn_name f = head ++ String "_" key) \/
  (contains_char "_" (fn_name f) = false /\ key = "") ->
  register_test f tests = (dict_set key f tests, f) /\
  dict_get key (fst (register_test f tests)) = Some f /\
  snd (register_test f tests) = f.
Proof.
  intro Hname.
  assert (Hkey : snd (partition (fn_name f) "_") = key).
  { unfold partition. destruct Hname as [[head [Hhead ->]] | [Hnone ->]].
    - rewrite (split_at_first _ _ _ Hhead). reflexivity.
    - rewrite (split_at_absent _ _ Hnone). reflexivity. }
  unfold register_test. rewrite Hkey. cbn [fst snd].
  repeat split. apply dict_get_set_same.
Qed.

Lemma register_test_key_witness :
  let f := {| fn_name := "test_class"; fn_doc := None; fn_id := 0 |} in
  register_test f [] = (dict_set "class" f [], f) /\
  dict_get "class" (fst (register_test f [])) = Some f /\
  snd (register_test f []) = f.
Proof.
  intro f. apply (register_test_key f [] "class").
  left. exists "test". split; reflexivity.
Defined.

(** ** The prompt loop *)

Lemma invoked_app (l l' : list event) :
  invoked (l ++ l') = (invoked l ++ invoked l')%list.
Proof. apply flat_map_app. Qed.

Lemma after_invoke_app (l l' : list event) :
  invoked l = [] -> after_invoke (l ++ l') = after_invoke l'.
Proof.
  induction l as [| e l IH]; [reflexivity |].
  destruct e; cbn [invoked flat_map app after_invoke]; intro Hl;
    try (apply IH; exact Hl).
  discriminate Hl.
Qed.

Lemma count_printed_app (line : string) (l l' : list event) :
  count_printed line (l ++ l') = count_printed line l + count_printed line l'.
Proof. unfold count_printed. now rewrite filter_app, length_app. Qed.

Lemma prints_quiet (f : string -> string) (lines : list string) :
  invoked (map (fun l => Print (f l)) lines) = [].
Proof. induction lines; [reflexivity | exact IHlines]. Qed.

Lemma gen_printed_quiet (g : list gen_step) : invoked (gen_printed g) = [].
Proof. induction g as [| [line | x] g IH]; [reflexivity | exact IH | exact IH]. Qed.

Lemma menu_quiet {lib : Lib} (tests : Registry) : invoked (menu tests) = [].
Proof.
  unfold menu, pprint_tests, pprint_list, setup.
  cbn [app invoked flat_map].
  change (flat_map _ ?l) with (invoked l).
  rewrite invoked_app, gen_printed_quiet. apply prints_quiet.
Qed.

Lemma retries_quiet (bad : list string) : invoked (retries bad) = [].
Proof. induction bad; [reflexivity | exact IHbad]. Qed.

Lemma indented_not_retry (x : string) :
  is_print_of retry_message (Print ("    " ++ x)) = false.
Proof. reflexivity. Qed.

Lemma menu_no_retry {lib : Lib} (tests : Registry) :
  count_printed retry_message (menu tests) = 0.
Proof.
  unfold menu, pprint_tests, pprint_list, setup, count_printed.
  cbn [app filter is_print_of].
  change (String.eqb "Available tests:" retry_message) with false. cbv iota.
  rewrite filter_app, length_app.
  assert (Hgen : forall r : Registry,
    filter (is_print_of retry_message) (gen_printed (print_documented_tests r)) = []).
  { induction r as [| [tname test] r IH]; [reflexivity |].
    unfold print_documented_tests. cbn [map].
    destruct (documented test); cbn [gen_printed filter].
    - rewrite indented_not_retry. exact IH.
    - exact IH. }
  rewrite Hgen. cbn [List.length plus].
  induction (textwrap_wrap _) as [| l ls IH]; [reflexivity |].
  cbn [map filter]. rewrite indented_not_retry. exact IH.
Qed.

Lemma banner_not_retry (tname : string) :
  String.eqb (banner tname) retry_message = false.
Proof.
  unfold banner, center.
  destruct (_ <=? _)%nat; [reflexivity |].
  destruct (_ + _)%nat; reflexivity.
Qed.

Lemma prompt_loop_rejects (tests : Registry) (bad : list string) (inp : list input) :
  Forall (fun l => dict_get l tests = None) bad ->
  prompt_loop tests (map Line bad ++ inp) =
  ((retries bad ++ fst (prompt_loop tests inp))%list, snd (prompt_loop tests inp)).
Proof.
  induction 1 as [| l bad Hl _ IH].
  - cbn [map app retries flat_map]. now destruct (prompt_loop tests inp).
  - cbn [map app prompt_loop]. rewrite Hl, IH. reflexivity.
Qed.

Lemma prompt_loop_prompts (tests : Registry) (inp : list input) :
  hd_error (fst (prompt_loop tests inp)) = Some (Prompt "Your choice: ").
Proof.
  destruct inp as [| [l | |] rest]; try reflexivity.
  cbn [prompt_loop]. destruct (dict_get l tests); [reflexivity |].
  now destruct (prompt_loop tests rest).
Qed.

Lemma test_main_chosen {lib : Lib} (tests : Registry) (bad : list string)
    (tname : string) (test : Test) (rest : list input) :
  Forall (fun l => dict_get l tests = None) bad ->
  dict_get tname tests = Some test ->
  test_main tests (map Line bad ++ Line tname :: rest) =
  ((menu tests ++ retries bad ++
    [Prompt "Your choice: "; Print (banner tname); Print ""; Invoke test])%list,
   Called test).
Proof.
  intros Hbad Hget. unfold test_main.
  rewrite (prompt_loop_rejects _ _ _ Hbad).
  cbn [prompt_loop]. rewrite Hget. cbn [fst snd].
  fold (menu tests). now rewrite <- !app_assoc.
Qed.

Lemma test_main_stopped {lib : Lib} (tests : Registry) (bad : list string)
    (stop : list input) :
  Forall (fun l => dict_get l tests = None) bad ->
  no_line stop = true ->
  test_main tests (map Line bad ++ stop) =
  ((menu tests ++ retries bad ++ [Prompt "Your choice: "; Print ""])%list, Returned).
Proof.
  intros Hbad Hstop. unfold test_main.
  rewrite (prompt_loop_rejects _ _ _ Hbad).
  assert (Hloop : prompt_loop tests stop = ([Prompt "Your choice: "; Print ""], None)).
  { destruct stop as [| [l | |] rest]; try reflexivity. discriminate Hstop. }
  rewrite Hloop. cbn [fst snd]. reflexivity.
Qed.

(** ** The banner *)

Lemma startswith_append (needle rest : string) :
  startswith (needle ++ rest) needle = true.
Proof.
  induction needle as [| c needle IH]; [reflexivity |].
  cbn [append startswith]. now rewrite Ascii.eqb_refl, IH.
Qed.

Lemma substring_of_here (needle rest : string) :
  substring_of needle (needle ++ rest) = true.
Proof.
  destruct (needle ++ rest) eqn:E; cbn [substring_of].
  - destruct needle; [reflexivity | discriminate E].
  - rewrite <- E. rewrite startswith_append. reflexivity.
Qed.

Lemma substring_of_skip (needle pre s : string) :
  substring_of needle s = true -> substring_of needle (pre ++ s) = true.
Proof.
  intro Hs. induction pre as [| c pre IH]; [exact Hs |].
  cbn [append substring_of]. rewrite IH. apply orb_true_r.
Qed.

Lemma append_assoc_string (s t u : string) : (s ++ t) ++ u = s ++ (t ++ u).
Proof. induction s as [| c s IH]; [reflexivity | cbn; now rewrite IH]. Qed.

Lemma append_empty_r (s : string) : s ++ "" = s.
Proof. induction s as [| c s IH]; [reflexivity | cbn; now rewrite IH]. Qed.

Lemma length_append (s t : string) :
  String.length (s ++ t) = String.length s + String.length t.
Proof. induction s as [| c s IH]; [reflexivity | cbn; now rewrite IH]. Qed.

Lemma length_repeat_char (fill : ascii) (n : nat) :
  String.length (repeat_char fill n) = n.
Proof. induction n as [| n IH]; [reflexivity | cbn; now rewrite IH]. Qed.

(** On an even width the text sits in the middle: the right margin is the
    left one or one more, and the whole is as wide as asked unless the text
    is wider already. *)
Lemma center_even_shape (s : string) (half : nat) (fill : ascii) :
  exists left right : nat,
    center s (2 * half) fill = repeat_char fill left ++ s ++ repeat_char fill right /\
    left <= right <= S left /\
    left + String.length s + right = Nat.max (2 * half) (String.length s).
Proof.
  unfold center.
  destruct (Nat.leb_spec (2 * half) (String.length s)) as [Hwide | Hnarrow].
  - exists 0, 0. cbn [repeat_char append]. rewrite append_empty_r. repeat split; lia.
  - set (marg := 2 * half - String.length s).
    assert (Hodd : Nat.odd (2 * half) = false).
    { rewrite Nat.odd_mul. reflexivity. }
    rewrite Hodd, andb_false_r, Nat.add_0_r.
    exists (Nat.div2 marg), (marg - Nat.div2 marg).
    pose proof (Nat.div2_odd marg) as Hdiv.
    destruct (Nat.odd marg); cbn [Nat.b2n] in Hdiv; repeat split; lia.
Qed.

Lemma banner_contains_repr (tname : string) :
  substring_of (repr tname) (banner tname) = true.
Proof.
  unfold banner.
  destruct (center_even_shape (" Running test " ++ repr tname ++ " ") 40 "-")
    as (left & right & Hshape & _).
  change (2 * 40) with 80 in Hshape. rewrite Hshape.
  apply substring_of_skip. rewrite !append_assoc_string.
  apply (substring_of_skip _ " Running test ").
  apply substring_of_here.
Qed.

Lemma plain_char_kept (c : ascii) :
  plain_char c = true ->
  repr_char "'" c = String c "" /\ Ascii.eqb "'" c = false.
Proof.
  destruct c as [[] [] [] [] [] [] [] []]; intro Hc;
    first [ split; reflexivity | vm_compute in Hc; discriminate Hc ].
Qed.

Lemma repr_plain (s : string) :
  plain s = true -> repr s = String "'" (s ++ "'").
Proof.
  intro Hs.
  assert (Hbody : repr_body "'" s = s /\ contains_char "'" s = false).
  { induction s as [| c s IH]; [split; reflexivity |].
    cbn [plain] in Hs. apply andb_true_iff in Hs as [Hc Hs].
    destruct (plain_char_kept c Hc) as [Hr Hq], (IH Hs) as [Hb Hn].
    cbn [repr_body contains_char]. rewrite Hr, Hq, Hb, Hn. split; reflexivity. }
  destruct Hbody as [Hb Hn]. unfold repr. rewrite Hn. cbn [andb].
  now rewrite Hb.
Qed.

Lemma banner_contains_plain_name (tname : string) :
  plain tname = true -> substring_of tname (banner tname) = true.
Proof.
  intro Hplain. unfold banner.
  destruct (center_even_shape (" Running test " ++ repr tname ++ " ") 40 "-")
    as (left & right & Hshape & _).
  change (2 * 40) with 80 in Hshape. rewrite Hshape.
  apply substring_of_skip. rewrite (repr_plain _ Hplain).
  cbn [append]. rewrite !append_assoc_string.
  apply (substring_of_skip tname " Running test '" (tname ++ _)).
  apply substring_of_here.
Qed.

(** ** [test_main] *)

(** C2, as stated, fails: with the registry of pulsar_solution.py and the
    line "repr", the test is called and nothing at all is printed once it
    has been called, so there is no banner after it. *)
Lemma no_banner_after_the_test :
  let tr := fst (test_main (lib := one_line_lib) TESTS [Line "repr"]) in
  dict_get "repr" TESTS = Some (mk_test 6 "test_repr" "Try to show a textual version of a Pulsar object") /\
  invoked tr = [mk_test 6 "test_repr" "Try to show a textual version of a Pulsar object"] /\
  ~ (exists line : string, In (Print line) (after_invoke tr)).
Proof.
  cbn zeta. split; [reflexivity |]. split; [reflexivity |].
  intros [line Hin]. vm_compute in Hin. exact Hin.
Qed.

(** C2, amended: on a line that is a registered name (after any number of
    rejected lines) [test_main] prompts no further, prints the banner, an
    empty line, and calls the test with no arguments as its last act.  The
    banner is the text " Running test <repr of the line> " centred between
    dashes in 80 columns; it holds the name itself when the name is made of
    plain characters.  Nothing is printed after the call. *)
Theorem test_main_runs_chosen_test {lib : Lib} (tests : Registry)
    (bad : list string) (tname : string) (test : Test) (rest : list input) :
  Forall (fun l => dict_get l tests = None) bad ->
  dict_get tname tests = Some test ->
  let tr := fst (test_main tests (map Line bad ++ Line tname :: rest)) in
  test_main tests (map Line bad ++ Line tname :: rest) =
    ((menu tests ++ retries bad ++
      [Prompt "Your choice: "; Print (banner tname); Print ""; Invoke test])%list,
     Called test) /\
  invoked tr = [test] /\
  after_invoke tr = [] /\
  (exists left right : nat,
      banner tname =
        repeat_char "-" left ++ (" Running test " ++ repr tname ++ " ")
                             ++ repeat_char "-" right /\
      left <= right <= S left /\
      80 <= String.length (banner tname)) /\
  substring_of (repr tname) (banner tname) = true /\
  (plain tname = true -> substring_of tname (banner tname) = true).
Proof.
  intros Hbad Hget tr. subst tr.
  rewrite (test_main_chosen _ _ _ _ _ Hbad Hget). cbn [fst].
  repeat split.
  - rewrite !invoked_app, menu_quiet, retries_quiet. reflexivity.
  - rewrite (after_invoke_app _ _ (menu_quiet tests)).
    rewrite (after_invoke_app _ _ (retries_quiet bad)). reflexivity.
  - unfold banner.
    destruct (center_even_shape (" Running test " ++ repr tname ++ " ") 40 "-")
      as (left & right & Hshape & Hmid & Hwidth).
    exists left, right. change (2 * 40) with 80 in Hshape, Hwidth.
    split; [exact Hshape |]. split; [exact Hmid |].
    rewrite Hshape.
    set (text := " Running test " ++ repr tname ++ " ") in *.
    rewrite !length_append, !length_repeat_char. lia.
  - apply banner_contains_repr.
  - apply banner_contains_plain_name.
Qed.

Lemma test_main_runs_chosen_test_witness :
  let test := mk_test 7 "test_property" "Try out the properties of the Pulsar class" in
  let tr := fst (test_main (lib := one_line_lib) TESTS
                   (map Line ["bogus"] ++ Line "property" :: [Line "full"])) in
  invoked tr = [test] /\ after_invoke tr = [] /\
  substring_of "property" (banner "property") = true.
Proof.
  intros test tr.
  destruct (test_main_runs_chosen_test (lib := one_line_lib) TESTS ["bogus"]
              "property" test [Line "full"]) as (_ & Hinv & Hafter & _ & _ & Hname).
  - repeat constructor.
  - reflexivity.
  - split; [exact Hinv |]. split; [exact Hafter |]. apply Hname. reflexivity.
Defined.

(** C3: with an unregistered line followed by a registered one the retry
    message is printed once and the test of the second line is called once,
    and no other; in general a rejected line costs one prompt and one retry
    message, and the loop goes on with the rest of the input, starting with
    a new prompt. *)
Theorem test_main_retry_then_run {lib : Lib} (tests : Registry)
    (bogus good : string) (test : Test) (inp : list input) :
  dict_get bogus tests = None ->
  dict_get good tests = Some test ->
  let tr := fst (test_main tests [Line bogus; Line good]) in
  tr = (menu tests ++
        [Prompt "Your choice: "; Print retry_message;
         Prompt "Your choice: "; Print (banner good); Print ""; Invoke test])%list /\
  count_printed retry_message tr = 1 /\
  invoked tr = [test] /\
  snd (test_main tests [Line bogus; Line good]) = Called test /\
  prompt_loop tests (Line bogus :: inp) =
    (Prompt "Your choice: " :: Print retry_message :: fst (prompt_loop tests inp),
     snd (prompt_loop tests inp)) /\
  hd_error (fst (prompt_loop tests inp)) = Some (Prompt "Your choice: ").
Proof.
  intros Hbogus Hgood tr. subst tr.
  pose proof (test_main_chosen tests [bogus] good test [] (Forall_cons _ Hbogus (Forall_nil _)) Hgood)
    as Hrun.
  cbn [map app retries flat_map] in Hrun. rewrite Hrun. cbn [fst snd].
  repeat split.
  - rewrite count_printed_app, menu_no_retry.
    unfold count_printed. cbn [filter is_print_of].
    rewrite String.eqb_refl, banner_not_retry. reflexivity.
  - rewrite invoked_app, menu_quiet. reflexivity.
  - pose proof (prompt_loop_rejects tests [bogus] inp (Forall_cons _ Hbogus (Forall_nil _)))
      as Hstep.
    exact Hstep.
  - apply prompt_loop_prompts.
Qed.

Lemma test_main_retry_then_run_witness :
  let test := mk_test 7 "test_property" "Try out the properties of the Pulsar class" in
  let tr := fst (test_main (lib := one_line_lib) TESTS [Line "bogus"; Line "property"]) in
  count_printed retry_message tr = 1 /\ invoked tr = [test].
Proof.
  intros test tr.
  destruct (test_main_retry_then_run (lib := one_line_lib) TESTS "bogus" "property"
              test []) as (_ & Hcount & Hinv & _).
  - reflexivity.
  - reflexivity.
  - split; [exact Hcount | exact Hinv].
Defined.

(** C4: when the input ends or is interrupted at a prompt before any line
    was a registered name, [test_main] prints an empty line and returns,
    having called no test. *)
Theorem test_main_end_of_input {lib : Lib} (tests : Registry)
    (bad : list string) (stop : list input) :
  Forall (fun l => dict_get l tests = None) bad ->
  no_line stop = true ->
  test_main tests (map Line bad ++ stop) =
    ((menu tests ++ retries bad ++ [Prompt "Your choice: "; Print ""])%list, Returned) /\
  invoked (fst (test_main tests (map Line bad ++ stop))) = [].
Proof.
  intros Hbad Hstop.
  rewrite (test_main_stopped _ _ _ Hbad Hstop). split; [reflexivity |].
  cbn [fst]. rewrite !invoked_app, menu_quiet, retries_quiet. reflexivity.
Qed.

Lemma test_main_end_of_input_witness :
  snd (test_main (lib := one_line_lib) TESTS (map Line ["bogus"] ++ [KeyboardInterrupt; Line "repr"]))
    = Returned /\
  invoked (fst (test_main (lib := one_line_lib) TESTS (map Line [] ++ []))) = [].
Proof.
  split.
  - destruct (test_main_end_of_input (lib := one_line_lib) TESTS ["bogus"]
                [KeyboardInterrupt; Line "repr"]) as [Hrun _].
    + repeat constructor.
    + reflexivity.
    + rewrite Hrun. reflexivity.
  - apply (test_main_end_of_input (lib := one_line_lib) TESTS [] []).
    + constructor.
    + reflexivity.
Defined.

(** ** More on the registry *)

Lemma dict_get_set (tname k : string) (f : Test) (tests : Registry) :
  dict_get k (dict_set tname f tests) =
  if String.eqb tname k then Some f else dict_get k tests.
Proof.
  destruct (String.eqb tname k) eqn:E.
  - apply String.eqb_eq in E. subst k. apply dict_get_set_same.
  - now apply dict_get_set_other.
Qed.

Lemma find_snoc {A} (p : A -> bool) (l : list A) (x : A) :
  find p (l ++ [x]) =
  match find p l with
  | Some y => Some y
  | None => if p x then Some x else None
  end.
Proof.
  induction l as [| y l IH]; cbn [app find]; [reflexivity |].
  now destruct (p y).
Qed.

Lemma existsb_eqb_in (k : string) (ks : list string) :
  existsb (String.eqb k) ks = true <-> In k ks.
Proof.
  rewrite existsb_exists. split.
  - intros [x [Hin Heq]]. apply String.eqb_eq in Heq. now subst x.
  - intro Hin. exists k. split; [exact Hin | apply String.eqb_refl].
Qed.

Lemma add_key_nodup (ks : list string) (k : string) :
  NoDup ks -> NoDup (add_key ks k).
Proof.
  intro Hks. unfold add_key.
  destruct (existsb (String.eqb k) ks) eqn:E; [exact Hks |].
  assert (Hnot : ~ In k ks).
  { intro Hin. apply existsb_eqb_in in Hin. congruence. }
  apply NoDup_app; [exact Hks | repeat constructor; intros [] | ].
  intros x Hx [<- | []]. exact (Hnot Hx).
Qed.

Lemma dict_get_some_in (k : string) (tests : Registry) :
  In k (keys tests) -> exists test, dict_get k tests = Some test.
Proof.
  induction tests as [| [k0 v] rest IH]; [intros [] |].
  cbn [keys map fst dict_get In].
  destruct (String.eqb k0 k) eqn:E.
  - intros _. now exists v.
  - intros [Heq | Hin].
    + subst k0. rewrite String.eqb_refl in E. discriminate E.
    + apply IH, Hin.
Qed.

Lemma dict_get_in_keys (k : string) (test : Test) (tests : Registry) :
  dict_get k tests = Some test -> In k (keys tests).
Proof.
  induction tests as [| [k0 v] rest IH]; [discriminate |].
  cbn [keys map fst dict_get In].
  destruct (String.eqb k0 k) eqn:E.
  - intros _. left. now apply String.eqb_eq.
  - intro Hget. right. apply IH, Hget.
Qed.

(** X1: the key of a function is read off its name: either the name is
    head, underscore, key with no underscore in the head, or the name has
    no underscore at all and the key is empty. *)
Theorem test_key_splits_name (f : Test) :
  (exists head : string,
      contains_char "_" head = false /\
      fn_name f = head ++ String "_" (test_key f)) \/
  (contains_char "_" (fn_name f) = false /\ test_key f = "").
Proof.
  unfold test_key, partition.
  assert (Hsplit : forall s : string,
    match split_at "_" s with
    | Some (h, t) => contains_char "_" h = false /\ s = h ++ String "_" t
    | None => contains_char "_" s = false
    end).
  { induction s as [| c s IH]; [reflexivity |].
    cbn [split_at contains_char]. rewrite (Ascii.eqb_sym "_" c).
    destruct (Ascii.eqb c "_") eqn:E.
    - apply Ascii.eqb_eq in E. subst c. split; reflexivity.
    - destruct (split_at "_" s) as [[h t] |].
      + destruct IH as [Hh Hs]. cbn [contains_char append].
        rewrite (Ascii.eqb_sym "_" c), E, Hh, <- Hs. split; reflexivity.
      + exact IH. }
  specialize (Hsplit (fn_name f)).
  destruct (split_at "_" (fn_name f)) as [[h t] |]; cbn [snd].
  - left. exists h. exact Hsplit.
  - right. split; [exact Hsplit | reflexivity].
Qed.

(** X2: after any sequence of registrations, looking a key up gives the
    function registered last under it, and what the registry held before
    when none of the functions has this key. *)
Theorem register_all_latest_wins (fs : list Test) (tests : Registry) (k : string) :
  dict_get k (register_all fs tests) =
  match latest_for k fs with
  | Some f => Some f
  | None => dict_get k tests
  end.
Proof.
  unfold latest_for. revert tests.
  induction fs as [| f fs IH]; intro tests; [reflexivity |].
  cbn [register_all rev]. rewrite IH, find_snoc.
  destruct (find _ (rev fs)) as [g |]; [reflexivity |].
  unfold register_test. cbn [fst]. fold (test_key f).
  rewrite dict_get_set. now destruct (String.eqb (test_key f) k).
Qed.

(** X3: registrations keep the keys of the registry distinct. *)
Theorem register_all_keys_distinct (fs : list Test) (tests : Registry) :
  NoDup (keys tests) -> NoDup (keys (register_all fs tests)).
Proof.
  revert tests. induction fs as [| f fs IH]; intros tests Hnd; [exact Hnd |].
  cbn [register_all]. apply IH.
  unfold register_test. cbn [fst]. rewrite keys_dict_set.
  apply add_key_nodup, Hnd.
Qed.

Lemma register_all_keys_distinct_witness :
  NoDup (keys (register_all solution_tests [])).
Proof.
  apply (register_all_keys_distinct solution_tests []). constructor.
Defined.

(** X4: registering under a key that is taken replaces the function where
    the key stands, so the order and the number of entries stay; the
    functions under the other keys are not touched. *)
Theorem register_test_replaces_in_place (f : Test) (tests : Registry) (k : string) :
  In (test_key f) (keys tests) ->
  String.eqb (test_key f) k = false ->
  keys (fst (register_test f tests)) = keys tests /\
  dict_get (test_key f) (fst (register_test f tests)) = Some f /\
  dict_get k (fst (register_test f tests)) = dict_get k tests.
Proof.
  intros Hin Hother. unfold register_test. cbn [fst]. fold (test_key f).
  split; [| split].
  - rewrite keys_dict_set. unfold add_key.
    apply existsb_eqb_in in Hin. now rewrite Hin.
  - apply dict_get_set_same.
  - now apply dict_get_set_other.
Qed.

Lemma register_test_replaces_in_place_witness :
  let f := {| fn_name := "check_repr"; fn_doc := None; fn_id := 10 |} in
  keys (fst (register_test f TESTS)) = keys TESTS /\
  dict_get "repr" (fst (register_test f TESTS)) = Some f /\
  dict_get "full" (fst (register_test f TESTS)) = dict_get "full" TESTS.
Proof.
  intro f. apply (register_test_replaces_in_place f TESTS "full").
  - vm_compute. tauto.
  - reflexivity.
Defined.

(** X5: a function just registered is the one [test_main] runs when its
    key is typed, whatever the registry held and whatever follows in the
    input. *)
Theorem register_then_run {lib : Lib} (f : Test) (tests : Registry)
    (rest : list input) :
  let tests' := fst (register_test f tests) in
  snd (test_main tests' (Line (test_key f) :: rest)) = Called f /\
  invoked (fst (test_main tests' (Line (test_key f) :: rest))) = [f].
Proof.
  cbn zeta.
  assert (Hget : dict_get (test_key f) (fst (register_test f tests)) = Some f).
  { unfold register_test. cbn [fst]. fold (test_key f). apply dict_get_set_same. }
  pose proof (test_main_chosen (fst (register_test f tests)) [] (test_key f) f rest
                (Forall_nil _) Hget) as Hrun.
  cbn [map app retries flat_map] in Hrun. rewrite Hrun. cbn [fst snd].
  split; [reflexivity |].
  rewrite invoked_app, menu_quiet. reflexivity.
Qed.

(** ** More on the completer *)

Lemma startswith_spec (s text : string) :
  startswith s text = true <-> exists rest : string, s = text ++ rest.
Proof.
  revert s. induction text as [| a text IH]; intro s; cbn [startswith append].
  - split; [intros _; now exists s | reflexivity].
  - destruct s as [| b s].
    + split; [discriminate | intros [rest Hrest]; discriminate Hrest].
    + rewrite andb_true_iff, Ascii.eqb_eq, IH. split.
      * intros [-> [rest ->]]. now exists rest.
      * intros [rest Hrest]. injection Hrest as -> ->. split; [reflexivity | now exists rest].
Qed.

Lemma map_nth_error_from {A} (pre l : list A) :
  map (nth_error (pre ++ l)) (seq (List.length pre) (List.length l)) = map Some l.
Proof.
  revert pre. induction l as [| x l IH]; intro pre; [reflexivity |].
  cbn [List.length seq map]. f_equal.
  - rewrite nth_error_app2, Nat.sub_diag; [reflexivity | lia].
  - specialize (IH (pre ++ [x])%list).
    rewrite <- app_assoc, length_app in IH. cbn [app List.length] in IH.
    rewrite Nat.add_1_r in IH. exact IH.
Qed.

Lemma map_nth_error_all {A} (l : list A) :
  map (nth_error l) (seq 0 (S (List.length l))) = (map Some l ++ [None])%list.
Proof.
  rewrite seq_S, map_app. cbn [map plus]. f_equal.
  - exact (map_nth_error_from [] l).
  - f_equal. apply nth_error_None. lia.
Qed.

Lemma getitem_from_end {A} (lst : list A) (n : nat) :
  getitem lst (- Z.of_nat (S n)) =
  if (S n <=? List.length lst)%nat then nth_error lst (List.length lst - S n) else None.
Proof.
  unfold getitem.
  destruct (Z.leb_spec 0 (- Z.of_nat (S n))) as [Hpos | _]; [lia |].
  destruct (Nat.leb_spec (S n) (List.length lst)) as [Hin | Hout].
  - destruct (Z.leb_spec 0 (Z.of_nat (List.length lst) + - Z.of_nat (S n)))
      as [_ | Hneg]; [| lia].
    f_equal. lia.
  - destruct (Z.leb_spec 0 (Z.of_nat (List.length lst) + - Z.of_nat (S n)))
      as [Hpos | _]; [lia | reflexivity].
Qed.

(** X6: called with states 0, 1, 2, ... until it answers [None], as
    readline does, the completer gives every registered name that starts
    with the text, each once and in registry order, and then [None]. *)
Theorem complete_lists_every_match
    (tests : Registry) (prior : list string) (text : string) :
  let self := {| self_tests := keys tests; self_matches := prior |} in
  let found := matching (keys tests) text in
  fst (complete_calls self text (states_upto (List.length found)))
  = (map Some found ++ [None])%list.
Proof.
  cbn zeta. rewrite complete_calls_upto. cbn [fst self_tests].
  apply map_nth_error_all.
Qed.

(** X7: a name the completer offers in a run from state 0 is a registered
    name, it begins with the text, and [TESTS.get] finds a test under it. *)
Theorem completion_is_registered
    (tests : Registry) (prior : list string) (text : string) (k : nat)
    (tname : string) :
  In (Some tname)
     (fst (complete_calls {| self_tests := keys tests; self_matches := prior |}
             text (states_upto k))) ->
  In tname (keys tests) /\
  (exists rest : string, tname = text ++ rest) /\
  (exists test : Test, dict_get tname tests = Some test).
Proof.
  rewrite complete_calls_upto. cbn [fst self_tests]. intro Hin.
  apply in_map_iff in Hin as [j [Hj _]].
  apply nth_error_In in Hj. unfold matching in Hj.
  apply filter_In in Hj as [Hkey Hstart].
  split; [exact Hkey |]. split.
  - now apply startswith_spec.
  - now apply dict_get_some_in.
Qed.

Lemma completion_is_registered_witness :
  In "class_attribute" (keys TESTS) /\
  (exists rest : string, "class_attribute" = "cl" ++ rest) /\
  (exists test : Test, dict_get "class_attribute" TESTS = Some test).
Proof.
  apply (completion_is_registered TESTS [] "cl" 3 "class_attribute").
  vm_compute. tauto.
Defined.

(** X8: the completer looks at the text only when the state is 0.  At any
    other state it answers from the matches it holds: those of the last
    query that started at 0, and all the names on a completer that was
    never asked at state 0; it keeps its matches as they are. *)
Theorem complete_ignores_text_after_start
    (tests : Registry) (text0 text : string) (k0 n : nat) :
  let asked := snd (complete_calls (TestsCompleter_init tests) text0 (states_upto k0)) in
  complete asked text (Z.of_nat (S n))
    = (nth_error (matching (keys tests) text0) (S n), asked) /\
  complete (TestsCompleter_init tests) text (Z.of_nat (S n))
    = (nth_error (keys tests) (S n), TestsCompleter_init tests).
Proof.
  cbn zeta. rewrite complete_calls_upto. cbn [snd].
  split; rewrite complete_next; reflexivity.
Qed.

(** X9: a negative state is not refused: it indexes the held matches from
    the end, and goes out of range (the answer is [None]) only below minus
    their number; the matches are not recomputed. *)
Theorem complete_negative_state (self : TestsCompleter) (text : string) (n : nat) :
  complete self text (- Z.of_nat (S n)) =
  (if (S n <=? List.length (self_matches self))%nat
   then nth_error (self_matches self) (List.length (self_matches self) - S n)
   else None,
   self).
Proof.
  unfold complete.
  assert (Hnz : (- Z.of_nat (S n) =? 0)%Z = false) by (apply Z.eqb_neq; lia).
  rewrite Hnz. now rewrite getitem_from_end.
Qed.

(** ** More on the listing *)

(** X10: what [pprint_tests] prints: every entry with a non-empty
    docstring has its line in the output; the output has one line per such
    entry and one per line that [textwrap.wrap] makes of the joined names
    of the other entries, and nothing else; every line starts with the
    four-space indent. *)
Theorem listing_prints_documented {lib : Lib} (tests : Registry)
    (tname : string) (test : Test) :
  In (tname, test) tests ->
  documented test = true ->
  In (Print ("    " ++ tname ++ " - " ++ first_line (doc_text test)))
     (pprint_tests tests) /\
  List.length (pprint_tests tests)
    = List.length (filter (fun item : string * Test => documented (snd item)) tests)
      + List.length (textwrap_wrap (join ", " (undocumented_names tests))) /\
  (forall e : event, In e (pprint_tests tests) ->
     exists line : string, e = Print ("    " ++ line)).
Proof.
  intros Hin Hdoc.
  assert (Hout : pprint_tests tests =
    (map Print (documented_lines tests) ++
     map (fun line => Print ("    " ++ line))
         (textwrap_wrap (join ", " (undocumented_names tests))))%list).
  { unfold pprint_tests, pprint_list.
    destruct (pprint_tests_groups tests) as [-> ->]. reflexivity. }
  rewrite Hout. split; [| split].
  - apply in_or_app. left. apply in_map. unfold documented_lines.
    apply (in_map (fun item : string * Test =>
                     "    " ++ fst item ++ " - " ++ first_line (doc_text (snd item)))
                  _ (tname, test)).
    apply filter_In. split; [exact Hin | exact Hdoc].
  - rewrite length_app, !length_map. unfold documented_lines.
    now rewrite length_map.
  - intros e He. apply in_app_or in He as [He | He].
    + apply in_map_iff in He as [l [<- Hl]]. unfold documented_lines in Hl.
      apply in_map_iff in Hl as [[k v] [<- _]]. cbn [fst snd].
      now exists (k ++ " - " ++ first_line (doc_text v)).
    + apply in_map_iff in He as [l [<- _]]. now exists l.
Qed.

Lemma listing_prints_documented_witness :
  In (Print "    repr - Try to show a textual version of a Pulsar object")
     (pprint_tests (lib := one_line_lib) TESTS).
Proof.
  apply (listing_prints_documented (lib := one_line_lib) TESTS "repr"
           (mk_test 6 "test_repr" "Try to show a textual version of a Pulsar object")).
  - vm_compute. tauto.
  - reflexivity.
Defined.

(** ** More on [test_main] *)

Lemma count_prompts_app (l l' : list event) :
  count_prompts (l ++ l') = count_prompts l + count_prompts l'.
Proof. unfold count_prompts. now rewrite filter_app, length_app. Qed.

Lemma menu_no_prompt {lib : Lib} (tests : Registry) : count_prompts (menu tests) = 0.
Proof.
  unfold menu, pprint_tests, pprint_list, setup, count_prompts.
  cbn [app filter is_prompt]. rewrite filter_app, length_app.
  assert (Hgen : forall g : list gen_step, filter is_prompt (gen_printed g) = []).
  { induction g as [| [line | x] g IH]; [reflexivity | exact IH | exact IH]. }
  rewrite Hgen. cbn [List.length plus].
  induction (textwrap_wrap _) as [| l ls IH]; [reflexivity | exact IH].
Qed.

Lemma test_main_unfold {lib : Lib} (tests : Registry) (inp : list input) :
  test_main tests inp =
  match prompt_loop tests inp with
  | (out, None) => ((menu tests ++ out)%list, Returned)
  | (out, Some (tname, test)) =>
      ((menu tests ++ out ++ [Print (banner tname); Print ""; Invoke test])%list,
       Called test)
  end.
Proof. reflexivity. Qed.

Lemma prompt_loop_quiet (tests : Registry) (inp : list input) :
  invoked (fst (prompt_loop tests inp)) = [].
Proof.
  induction inp as [| [l | |] rest IH]; try reflexivity.
  cbn [prompt_loop]. destruct (dict_get l tests); [reflexivity |].
  destruct (prompt_loop tests rest). exact IH.
Qed.

Lemma prompt_loop_choice (tests : Registry) (inp : list input)
    (tname : string) (test : Test) :
  snd (prompt_loop tests inp) = Some (tname, test) ->
  In (Line tname) inp /\ dict_get tname tests = Some test.
Proof.
  induction inp as [| [l | |] rest IH]; try discriminate.
  cbn [prompt_loop]. destruct (dict_get l tests) as [t |] eqn:Hget.
  - cbn [snd]. intro Heq. injection Heq as -> ->. split; [now left | exact Hget].
  - destruct (prompt_loop tests rest) as [out r]. cbn [snd] in *.
    intro Hr. destruct (IH Hr) as [Hin Hreg]. split; [now right | exact Hreg].
Qed.

Lemma prompt_loop_counts (tests : Registry) (inp : list input) :
  count_prompts (fst (prompt_loop tests inp))
  = count_printed retry_message (fst (prompt_loop tests inp)) + 1.
Proof.
  induction inp as [| [l | |] rest IH]; try reflexivity.
  cbn [prompt_loop]. destruct (dict_get l tests); [reflexivity |].
  destruct (prompt_loop tests rest) as [out r]. cbn [fst] in *.
  unfold count_prompts, count_printed in *.
  cbn [filter is_prompt is_print_of].
  change (String.eqb retry_message retry_message) with true.
  cbn [List.length]. now rewrite IH.
Qed.

(** X11: whatever the input, [test_main] calls at most one test.  Either
    it calls none and returns, or it calls exactly the test registered
    under a line that was entered, as its last statement. *)
Theorem test_main_calls_at_most_one {lib : Lib} (tests : Registry)
    (inp : list input) :
  let run := test_main tests inp in
  (invoked (fst run) = [] /\ snd run = Returned) \/
  (exists (tname : string) (test : Test),
      In (Line tname) inp /\ dict_get tname tests = Some test /\
      invoked (fst run) = [test] /\ snd run = Called test).
Proof.
  cbn zeta. rewrite test_main_unfold.
  pose proof (prompt_loop_quiet tests inp) as Hquiet.
  pose proof (prompt_loop_choice tests inp) as Hchoice.
  destruct (prompt_loop tests inp) as [out [[tname test] |]]; cbn [fst snd] in *.
  - right. exists tname, test.
    destruct (Hchoice tname test eq_refl) as [Hin Hreg].
    split; [exact Hin |]. split; [exact Hreg |]. split; [| reflexivity].
    rewrite !invoked_app, menu_quiet, Hquiet. reflexivity.
  - left. split; [| reflexivity].
    rewrite invoked_app, menu_quiet, Hquiet. reflexivity.
Qed.

(** X12: whatever the input, [test_main] prompts once more than it prints
    the retry message: every prompt but the last was answered by a line
    that was rejected. *)
Theorem test_main_prompts_and_retries {lib : Lib} (tests : Registry)
    (inp : list input) :
  count_prompts (fst (test_main tests inp))
  = count_printed retry_message (fst (test_main tests inp)) + 1.
Proof.
  rewrite test_main_unfold.
  pose proof (prompt_loop_counts tests inp) as Hloop.
  destruct (prompt_loop tests inp) as [out [[tname test] |]]; cbn [fst] in *.
  - rewrite !count_prompts_app, !count_printed_app, menu_no_prompt, menu_no_retry, Hloop.
    unfold count_prompts, count_printed. cbn [filter is_prompt is_print_of].
    rewrite banner_not_retry. cbn. lia.
  - rewrite count_prompts_app, count_printed_app, menu_no_prompt, menu_no_retry.
    exact Hloop.
Qed.

(** X13: with an empty registry every line is rejected: [test_main] calls
    nothing and returns at the end of the input or at an interrupt. *)
Theorem test_main_empty_registry {lib : Lib} (inp : list input) :
  snd (test_main [] inp) = Returned /\ invoked (fst (test_main [] inp)) = [].
Proof.
  assert (Hloop : snd (prompt_loop [] inp) = None).
  { induction inp as [| [l | |] rest IH]; try reflexivity.
    cbn [prompt_loop dict_get]. destruct (prompt_loop [] rest). exact IH. }
  rewrite test_main_unfold.
  pose proof (prompt_loop_quiet [] inp) as Hquiet.
  destruct (prompt_loop [] inp) as [out r]. cbn [fst snd] in *. subst r.
  cbn [fst snd]. split; [reflexivity |].
  rewrite invoked_app, menu_quiet. exact Hquiet.
Qed.

(** ** Edge cases of the completer and of the summary line *)

Lemma matching_empty_text (names : list string) : matching names "" = names.
Proof.
  unfold matching. induction names as [| x names IH]; [reflexivity |].
  cbn [filter startswith]. f_equal. exact IH.
Qed.

(** X22: on the empty text every registered name is a match: a run from
    state 0 goes through all the names of the registry in order and then
    answers [None]. *)
Theorem complete_empty_text_lists_all (tests : Registry) (prior : list string) :
  fst (complete_calls {| self_tests := keys tests; self_matches := prior |}
         "" (states_upto (List.length (keys tests))))
  = (map Some (keys tests) ++ [None])%list.
Proof.
  rewrite complete_calls_upto. cbn [fst self_tests].
  rewrite matching_empty_text. apply map_nth_error_all.
Qed.

(** X23: the summary shown for a documented test is the beginning of its
    docstring, cut just before the first line boundary: what is cut off is
    empty or starts with a boundary, and the summary holds no boundary. *)
Theorem first_line_cuts_at_boundary {lib : Lib} (s : string) :
  exists rest : string,
    s = first_line s ++ rest /\
    match rest with
    | EmptyString => True
    | String c _ => line_boundary c = true
    end /\
    forallb (fun c => negb (line_boundary c)) (list_ascii_of_string (first_line s))
    = true.
Proof.
  induction s as [| c s (rest & Hs & Hrest & Hclean)].
  - exists "". repeat split.
  - cbn [first_line]. destruct (line_boundary c) eqn:Hc.
    + exists (String c s). repeat split. exact Hc.
    + exists rest. cbn [append list_ascii_of_string forallb].
      rewrite Hc, Hclean, <- Hs. repeat split. exact Hrest.
Qed.

End TestHelperProps.

Module PulsarProps.
Import Py PulsarSolution.

(** ** The computed views *)

Section ExactArithmetic.
Context {F A : Type} (ar : Arith F).
Hypothesis laws : field_theory f0 f1 fadd fmul fsub fopp fdiv finv (@eq F).

Add Field exact_field : laws.

Lemma power_two (x : F) : power x 2 = fmul x x.
Proof. reflexivity. Qed.





End ExactArithmetic.

Lemma Qc_field_laws : field_laws Qc_arith.
Proof. exact Qcft. Qed.

Lemma Qc_nonzero (q : Qc) : Qeq_bool q 0 = false -> q <> 0%Qc.
Proof.
  intros Hq Heq. rewrite Heq in Hq. discriminate Hq.
Qed.





(** C10: the [frequency] setter leaves [name], [coords] and
    [period_derivative] as they were, and the [frequency_derivative] setter
    leaves [name], [coords] and [period] as they were. *)
Theorem setters_frame {F A : Type} {ar : Arith F} (self : Pulsar F A) (freq fdot : F) :
  (name (set_frequency self freq) = name self /\
   coords (set_frequency self freq) = coords self /\
   period_derivative (set_frequency self freq) = period_derivative self) /\
  (name (set_frequency_derivative self fdot) = name self /\
   coords (set_frequency_derivative self fdot) = coords self /\
   period (set_frequency_derivative self fdot) = period self).
Proof. repeat split. Qed.

(** ** The catalog *)

Lemma repeat_char_add (c : ascii) (m n : nat) :
  repeat_char c m ++ repeat_char c n = repeat_char c (m + n).
Proof. induction m as [| m IH]; [reflexivity | cbn; now rewrite IH]. Qed.

Lemma rstrip_nul_nuls (n : nat) : rstrip_nul (repeat_char NUL n) = "".
Proof.
  induction n as [| n IH]; [reflexivity |].
  cbn [repeat_char rstrip_nul]. rewrite IH. reflexivity.
Qed.

Lemma rstrip_nul_pad (a : string) (n : nat) :
  rstrip_nul (a ++ repeat_char NUL n) = rstrip_nul a.
Proof.
  induction a as [| c a IH]; cbn [append rstrip_nul].
  - apply rstrip_nul_nuls.
  - now rewrite IH.
Qed.

Lemma rstrip_nul_split (a : string) :
  exists k : nat, a = rstrip_nul a ++ repeat_char NUL k.
Proof.
  induction a as [| c a [k Hk]]; [now exists 0 |].
  cbn [rstrip_nul]. destruct (rstrip_nul a) as [| d r].
  - cbn [append] in Hk. destruct (Ascii.eqb c NUL) eqn:Ec.
    + apply Ascii.eqb_eq in Ec. subst c. exists (S k). cbn. now rewrite <- Hk.
    + exists k. cbn. now rewrite <- Hk.
  - exists k. cbn [append] in *. now rewrite <- Hk.
Qed.

Lemma np_equal_spec (a b : string) :
  np_equal a b = true <-> same_up_to_nuls a b.
Proof.
  unfold np_equal, same_up_to_nuls. rewrite String.eqb_eq. split.
  - intro Hstrip.
    destruct (rstrip_nul_split a) as [ka Ha], (rstrip_nul_split b) as [kb Hb].
    exists kb, ka.
    remember (rstrip_nul a) as ra. remember (rstrip_nul b) as rb.
    subst a b rb.
    rewrite !TestHelperProps.append_assoc_string, !repeat_char_add.
    now rewrite Nat.add_comm.
  - intros [m [n Hpad]].
    now rewrite <- (rstrip_nul_pad a m), <- (rstrip_nul_pad b n), Hpad.
Qed.

Lemma same_up_to_nuls_refl (a : string) : same_up_to_nuls a a.
Proof. now exists 0, 0. Qed.

Lemma filter_nothing {B} (p : B -> bool) (l : list B) :
  (forall x, In x l -> p x = false) -> filter p l = [].
Proof.
  intro Hall. induction l as [| x l IH]; [reflexivity |].
  cbn [filter]. rewrite (Hall x (or_introl eq_refl)).
  apply IH. intros y Hy. apply Hall. now right.
Qed.

Section Catalog.
Context {F A : Type} {ar : Arith F} {rd : TableReader F A}.

Lemma has_id_spec (id : string) (row : Row F A) :
  has_id id row = true <-> carries id row.
Proof.
  unfold has_id, carries. now rewrite orb_true_iff, !np_equal_spec.
Qed.

Lemma not_carries (id : string) (row : Row F A) :
  has_id id row = false -> ~ carries id row.
Proof.
  intros Hfalse Hcarries. apply has_id_spec in Hcarries. congruence.
Qed.

Lemma has_id_false (id : string) (row : Row F A) :
  ~ carries id row -> has_id id row = false.
Proof.
  intro Hnot. destruct (has_id id row) eqn:E; [| reflexivity].
  elim Hnot. now apply has_id_spec.
Qed.

Lemma matching_rows_only (before after : Table F A) (row : Row F A) (id : string) :
  carries id row ->
  (forall r, In r (before ++ after)%list -> ~ carries id r) ->
  matching_rows (before ++ row :: after)%list id = [row].
Proof.
  intros Hrow Hothers. unfold matching_rows.
  change (fun r : Row F A => np_equal (NAME r) id || np_equal (PSRJ r) id)
    with (has_id (F := F) (A := A) id).
  rewrite filter_app. cbn [filter].
  apply has_id_spec in Hrow. rewrite Hrow.
  rewrite !filter_nothing; [reflexivity | |].
  - intros r Hr. apply has_id_false, Hothers, in_or_app. now right.
  - intros r Hr. apply has_id_false, Hothers, in_or_app. now left.
Qed.

Lemma matching_rows_none (t : Table F A) (id : string) :
  (forall r, In r t -> ~ carries id r) -> matching_rows t id = [].
Proof.
  intro Habsent. unfold matching_rows.
  apply (filter_nothing (has_id id)).
  intros r Hr. apply has_id_false, Habsent, Hr.
Qed.

(** C7, amended: the lookup compares as numpy does, without regard to NUL
    characters at the end of either string (an identifier equal to the
    column value is the plain case).  On a loaded catalog, an identifier
    that one row carries in this sense in its NAME or PSRJ column, and no
    other row does, yields the pulsar named by the identifier as it was
    passed, with coordinates made of the row's RAJ and DECJ and with the
    row's P0 and P1 as period and period derivative; an identifier that no
    row carries raises [ValueError] with a message built from the
    identifier, and nothing in [from_catalog] catches it.  The class is left
    as it was in both cases. *)
Theorem from_catalog_lookup (t before after : Table F A) (row : Row F A)
    (log : list io_event) (id : string) :
  (carries id row ->
   (forall r, In r (before ++ after)%list -> ~ carries id r) ->
   from_catalog {| catalog := Some (before ++ row :: after)%list; io_log := log |} id =
     (inr {| name := id;
             coords := {| ra := RAJ row; dec := DECJ row; frame := "icrs" |};
             period := P0 row;
             period_derivative := P1 row |},
      {| catalog := Some (before ++ row :: after)%list; io_log := log |})) /\
  ((forall r, In r t -> ~ carries id r) ->
   from_catalog {| catalog := Some t; io_log := log |} id =
     (inl (ValueError ("Pulsar " ++ repr id ++ " not found")),
      {| catalog := Some t; io_log := log |})) /\
  (NAME row = id \/ PSRJ row = id -> carries id row).
Proof.
  split; [| split].
  - intros Hrow Hothers. unfold from_catalog. cbn [catalog].
    now rewrite (matching_rows_only _ _ _ _ Hrow Hothers).
  - intro Habsent. unfold from_catalog. cbn [catalog].
    now rewrite (matching_rows_none _ _ Habsent).
  - intros [<- | <-]; [left | right]; apply same_up_to_nuls_refl.
Qed.

(** ** The cache *)

Lemma from_catalog_cached (t : Table F A) (log : list io_event) (id : string) :
  snd (from_catalog {| catalog := Some t; io_log := log |} id)
  = {| catalog := Some t; io_log := log |}.
Proof.
  unfold from_catalog. cbn [catalog].
  now destruct (matching_rows t id).
Qed.

Lemma lookups_cached (t : Table F A) (log : list io_event) (ids : list string) :
  snd (lookups {| catalog := Some t; io_log := log |} ids)
  = {| catalog := Some t; io_log := log |}.
Proof.
  induction ids as [| id ids IH]; [reflexivity |].
  cbn [lookups].
  pose proof (from_catalog_cached t log id) as Hone.
  destruct (from_catalog _ id) as [r cls1]. cbn [snd] in Hone. subst cls1.
  destruct (lookups _ ids) as [rs cls2]. exact IH.
Qed.

Lemma from_catalog_empty_cache (log : list io_event) (id : string) :
  snd (from_catalog {| catalog := None; io_log := log |} id) =
  match Table_read default_catalog with
  | Some t => {| catalog := Some t;
                 io_log := (log ++ [TableRead default_catalog true])%list |}
  | None => {| catalog := None;
               io_log := (log ++ [TableRead default_catalog false])%list |}
  end.
Proof.
  unfold from_catalog, read_catalog. cbn [catalog io_log].
  destruct (Table_read default_catalog) as [t |]; [| reflexivity].
  cbn [catalog]. now destruct (matching_rows t id).
Qed.

Lemma loads_snoc (log : list io_event) (fname : string) (ok : bool) :
  loads (log ++ [TableRead fname ok]) = loads log + (if ok then 1 else 0).
Proof.
  unfold loads. rewrite filter_app, length_app. now destruct ok.
Qed.

Lemma lookups_loads (cls : ClassState F A) (ids : list string) :
  loads (io_log (snd (lookups cls ids))) <=
  loads (io_log cls) + match catalog cls with Some _ => 0 | None => 1 end.
Proof.
  revert cls. induction ids as [| id ids IH]; intros [[t |] log].
  - cbn. lia.
  - cbn. lia.
  - rewrite lookups_cached. cbn. lia.
  - cbn [lookups].
    pose proof (from_catalog_empty_cache log id) as Hone.
    destruct (from_catalog _ id) as [r cls1]. cbn [snd] in Hone. subst cls1.
    destruct (Table_read default_catalog) as [t |].
    + pose proof (lookups_cached t (log ++ [TableRead default_catalog true]) ids) as Hrest.
      destruct (lookups _ ids) as [rs cls2]. cbn [snd] in *. subst cls2.
      cbn [io_log catalog]. rewrite loads_snoc. lia.
    + specialize (IH {| catalog := None; io_log := (log ++ [TableRead default_catalog false])%list |}).
      destruct (lookups _ ids) as [rs cls2]. cbn [snd] in *.
      cbn [io_log catalog] in *. rewrite loads_snoc in IH. lia.
Qed.

(** C8: with a catalog in the cache, [from_catalog] (once, or any number of
    times) leaves the cache and the record of reader calls as they are; with
    an empty cache it calls the reader once, on the default file; and over
    any sequence of lookups made from the class as it is at import, a table
    is loaded at most once. *)
Theorem from_catalog_loads_once (t : Table F A) (log : list io_event)
    (id : string) (ids : list string) :
  snd (from_catalog {| catalog := Some t; io_log := log |} id)
    = {| catalog := Some t; io_log := log |} /\
  snd (lookups {| catalog := Some t; io_log := log |} ids)
    = {| catalog := Some t; io_log := log |} /\
  io_log (snd (from_catalog {| catalog := None; io_log := log |} id))
    = (log ++ [TableRead default_catalog
                 (match Table_read default_catalog with Some _ => true | None => false end)])%list /\
  loads (io_log (snd (lookups {| catalog := None; io_log := [] |} ids))) <= 1.
Proof.
  split; [apply from_catalog_cached |].
  split; [apply lookups_cached |].
  split.
  - rewrite from_catalog_empty_cache.
    now destruct (Table_read default_catalog).
  - apply (lookups_loads {| catalog := None; io_log := [] |}).
Qed.

End Catalog.

Lemma from_catalog_lookup_witness :
  let cls := {| catalog := Some sample_catalog; io_log := [] |} in
  from_catalog (ar := Qc_arith) (rd := sample_reader) cls "J0534+2200"
    = (inr {| name := "J0534+2200";
              coords := {| ra := RAJ crab_row; dec := DECJ crab_row; frame := "icrs" |};
              period := P0 crab_row;
              period_derivative := P1 crab_row |}, cls) /\
  from_catalog (ar := Qc_arith) (rd := sample_reader) cls "Vela"
    = (inl (ValueError "Pulsar 'Vela' not found"), cls).
Proof.
  intro cls.
  destruct (from_catalog_lookup (ar := Qc_arith) (rd := sample_reader)
              sample_catalog [] [j1944_row] crab_row [] "J0534+2200")
    as (Hfound & _ & Hexact).
  destruct (from_catalog_lookup (ar := Qc_arith) (rd := sample_reader)
              sample_catalog [] [j1944_row] crab_row [] "Vela")
    as (_ & Habsent & _).
  split.
  - apply Hfound.
    + apply Hexact. right. reflexivity.
    + intros r [<- | []]. apply not_carries. reflexivity.
  - apply Habsent. intros r Hin.
    destruct Hin as [<- | [<- | []]]; apply not_carries; reflexivity.
Defined.

(** C7, as stated, fails: no row of the sample catalog has a NAME or a PSRJ
    equal to "J0534+2200" followed by a NUL character, yet the lookup of
    this identifier does not fail: it returns a pulsar, made of the Crab
    row, whose name is neither column of that row. *)
Lemma trailing_nul_identifier_is_found :
  let id := "J0534+2200" ++ String NUL "" in
  let cls := {| catalog := Some sample_catalog; io_log := [] |} in
  (forall r, In r sample_catalog -> NAME r <> id /\ PSRJ r <> id) /\
  from_catalog (ar := Qc_arith) (rd := sample_reader) cls id
    = (inr (from_catalog_row (ar := Qc_arith) crab_row (Some id)), cls) /\
  name (from_catalog_row (ar := Qc_arith) crab_row (Some id)) <> NAME crab_row /\
  name (from_catalog_row (ar := Qc_arith) crab_row (Some id)) <> PSRJ crab_row.
Proof.
  cbn zeta. split; [| split; [reflexivity | split; discriminate]].
  intros r [<- | [<- | []]]; split; discriminate.
Qed.

(** ** More on the computed views *)

Section ExactArithmeticMore.
Context {F A : Type} (ar : Arith F).
Hypothesis laws : field_theory f0 f1 fadd fmul fsub fopp fdiv finv (@eq F).

Add Field exact_field_more : laws.


Lemma period_again (p : F) : p <> f0 -> fdiv f1 (fdiv f1 p) = p.
Proof. intro Hp. field. split; [exact Hp | exact (F_1_neq_0 laws)]. Qed.

Lemma derivative_again (p pd : F) :
  p <> f0 ->
  fdiv (fopp (fdiv (fopp pd) (fmul p p))) (fmul (fdiv f1 p) (fdiv f1 p)) = pd.
Proof. intro Hp. field. split; [exact Hp | exact (F_1_neq_0 laws)]. Qed.

Lemma derivative_rescaled (p freq fdot : F) :
  p <> f0 -> freq <> f0 ->
  fdiv (fopp (fdiv (fopp fdot) (fmul (fdiv f1 p) (fdiv f1 p))))
       (fmul (fdiv f1 freq) (fdiv f1 freq))
  = fmul fdot (fmul (fmul p freq) (fmul p freq)).
Proof.
  intros Hp Hf. field. repeat split; try assumption; exact (F_1_neq_0 laws).
Qed.

Lemma derivative_after_frequency (freq fdot : F) :
  freq <> f0 ->
  fdiv (fopp (fdiv (fopp fdot)
                   (fmul (fdiv f1 (fdiv f1 freq)) (fdiv f1 (fdiv f1 freq)))))
       (fmul (fdiv f1 freq) (fdiv f1 freq))
  = fdot.
Proof.
  intro Hf. field. repeat split; try assumption; exact (F_1_neq_0 laws).
Qed.


(** X15: writing back what was just read changes nothing: setting
    [frequency] to the frequency read, or [frequency_derivative] to the
    frequency derivative read, gives the same pulsar (non-zero period). *)
Theorem setters_write_back (self : Pulsar F A) :
  period self <> f0 ->
  set_frequency self (frequency self) = self /\
  set_frequency_derivative self (frequency_derivative self) = self.
Proof.
  destruct self as [nm c p pd]. cbn [period]. intro Hp.
  unfold set_frequency, set_frequency_derivative, frequency, frequency_derivative.
  cbn [name coords period period_derivative]. rewrite !power_two. split.
  - f_equal. apply period_again, Hp.
  - f_equal. apply derivative_again, Hp.
Qed.

(** X16: the two setters do not commute.  The stored derivative is the
    period derivative, so setting the frequency after the frequency
    derivative rescales the frequency derivative read back by
    (period times new frequency) squared; setting the frequency first and
    the frequency derivative second gives back both values as set. *)
Theorem setters_order (self : Pulsar F A) (fdot freq : F) :
  period self <> f0 ->
  freq <> f0 ->
  frequency_derivative (set_frequency (set_frequency_derivative self fdot) freq)
    = fmul fdot (fmul (fmul (period self) freq) (fmul (period self) freq)) /\
  frequency (set_frequency_derivative (set_frequency self freq) fdot) = freq /\
  frequency_derivative (set_frequency_derivative (set_frequency self freq) fdot) = fdot.
Proof.
  intros Hp Hf.
  unfold set_frequency, set_frequency_derivative, frequency, frequency_derivative.
  cbn [name coords period period_derivative]. rewrite !power_two.
  split; [| split].
  - apply derivative_rescaled; assumption.
  - apply period_again, Hf.
  - apply derivative_after_frequency, Hf.
Qed.

End ExactArithmeticMore.


Lemma setters_write_back_witness :
  let psr := from_catalog_row (ar := Qc_arith) crab_row None in
  set_frequency (ar := Qc_arith) psr (frequency (ar := Qc_arith) psr) = psr /\
  set_frequency_derivative (ar := Qc_arith) psr
    (frequency_derivative (ar := Qc_arith) psr) = psr.
Proof.
  intro psr. apply (setters_write_back Qc_arith Qc_field_laws psr).
  apply Qc_nonzero. reflexivity.
Defined.

Lemma setters_order_witness :
  let psr := from_catalog_row (ar := Qc_arith) j1944_row None in
  frequency (ar := Qc_arith)
    (set_frequency_derivative (ar := Qc_arith)
       (set_frequency (ar := Qc_arith) psr (Q2Qc 7)) (Q2Qc (-3 # 8)))
  = Q2Qc 7.
Proof.
  intro psr.
  destruct (setters_order Qc_arith Qc_field_laws psr (Q2Qc (-3 # 8)) (Q2Qc 7))
    as (_ & Hfreq & _).
  - apply Qc_nonzero. reflexivity.
  - apply Qc_nonzero. reflexivity.
  - exact Hfreq.
Defined.

(** ** More on the catalog *)

Section CatalogMore.
Context {F A : Type} {ar : Arith F} {rd : TableReader F A}.

Lemma head_of_filter {B} (p : B -> bool) (l : list B) :
  find p l = match filter p l with [] => None | x :: _ => Some x end.
Proof.
  induction l as [| x l IH]; [reflexivity |].
  cbn [find filter]. now destruct (p x).
Qed.

Lemma from_catalog_search (t : Table F A) (log : list io_event) (id : string) :
  from_catalog {| catalog := Some t; io_log := log |} id
  = (search t id, {| catalog := Some t; io_log := log |}).
Proof.
  unfold from_catalog, search. cbn [catalog].
  rewrite (head_of_filter (has_id id) t).
  change (filter (has_id id) t) with (matching_rows t id).
  now destruct (matching_rows t id).
Qed.

Lemma lookups_search (t : Table F A) (log : list io_event) (ids : list string) :
  lookups {| catalog := Some t; io_log := log |} ids
  = (map (search t) ids, {| catalog := Some t; io_log := log |}).
Proof.
  induction ids as [| id ids IH]; [reflexivity |].
  cbn [lookups map]. now rewrite from_catalog_search, IH.
Qed.

Lemma find_first {B} (p : B -> bool) (before after : list B) (x : B) :
  (forall y, In y before -> p y = false) -> p x = true ->
  find p (before ++ x :: after)%list = Some x.
Proof.
  intros Hbefore Hx. induction before as [| y before IH]; cbn [app find].
  - now rewrite Hx.
  - rewrite (Hbefore y (or_introl eq_refl)). apply IH.
    intros z Hz. apply Hbefore. now right.
Qed.

(** X17: when several rows carry the identifier, the first of them in the
    order of the table makes the pulsar; the rows after it play no part. *)
Theorem from_catalog_first_match (before after : Table F A) (row : Row F A)
    (log : list io_event) (id : string) :
  (forall r, In r before -> has_id id r = false) ->
  has_id id row = true ->
  from_catalog {| catalog := Some (before ++ row :: after)%list; io_log := log |} id
  = (inr (from_catalog_row row (Some id)),
     {| catalog := Some (before ++ row :: after)%list; io_log := log |}).
Proof.
  intros Hbefore Hrow. rewrite from_catalog_search. unfold search.
  now rewrite (find_first _ _ _ _ Hbefore Hrow).
Qed.

(** X18: a pulsar that a lookup returns is named by the identifier asked
    for, as it was passed, also when that is the row's PSRJ and its NAME is
    another; its coordinates, period and period derivative are those of a
    row of the catalog that carries the identifier (NULs at the end
    apart).  When the identifier is the row's NAME the pulsar is the one
    [from_catalog_row] makes of the row alone. *)
Theorem from_catalog_result (t : Table F A) (log : list io_event)
    (id : string) (psr : Pulsar F A) :
  fst (from_catalog {| catalog := Some t; io_log := log |} id) = inr psr ->
  name psr = id /\
  exists row : Row F A,
    In row t /\ carries id row /\
    psr = from_catalog_row row (Some id) /\
    coords psr = {| ra := RAJ row; dec := DECJ row; frame := "icrs" |} /\
    period psr = P0 row /\ period_derivative psr = P1 row /\
    (if String.eqb (NAME row) id then psr = from_catalog_row row None else True).
Proof.
  rewrite from_catalog_search. cbn [fst]. unfold search.
  destruct (find (has_id id) t) as [row |] eqn:Hfind; [| discriminate].
  intro Heq. injection Heq as <-. split; [reflexivity |].
  exists row. apply find_some in Hfind as [Hin Hid].
  apply has_id_spec in Hid.
  repeat split; try assumption.
  destruct (String.eqb (NAME row) id) eqn:E; [| exact I].
  apply String.eqb_eq in E. unfold from_catalog_row. now rewrite E.
Qed.

(** X19: with an empty cache and a reader that delivers, a sequence of
    lookups reads the default file once, at the first lookup, keeps the
    table, and answers every lookup as a search of that table: the lookups
    do not influence each other. *)
Theorem lookups_load_then_search (t : Table F A) (log : list io_event)
    (id : string) (ids : list string) :
  Table_read default_catalog = Some t ->
  lookups {| catalog := None; io_log := log |} (id :: ids)
  = (map (search t) (id :: ids),
     {| catalog := Some t;
        io_log := (log ++ [TableRead default_catalog true])%list |}).
Proof.
  intro Hread. cbn [lookups map].
  assert (Hfirst : from_catalog {| catalog := None; io_log := log |} id
                   = (search t id,
                      {| catalog := Some t;
                         io_log := (log ++ [TableRead default_catalog true])%list |})).
  { pose proof (from_catalog_search t (log ++ [TableRead default_catalog true]) id)
      as Hcached.
    unfold from_catalog, read_catalog in *. cbn [catalog io_log] in *.
    rewrite Hread. cbn [catalog]. exact Hcached. }
  now rewrite Hfirst, lookups_search.
Qed.

(** X20: with an empty cache and a reader that raises, every lookup
    raises the reader's error, never "not found"; the cache stays empty, so
    each lookup calls the reader again. *)
Theorem lookups_reader_fails (log : list io_event) (ids : list string) :
  Table_read default_catalog = None ->
  lookups {| catalog := None; io_log := log |} ids
  = (map (fun _ : string => inl (ReadError default_catalog)) ids,
     {| catalog := None;
        io_log := (log ++ repeat (TableRead default_catalog false) (List.length ids))%list |}).
Proof.
  intro Hread. revert log.
  induction ids as [| id ids IH]; intro log.
  - cbn [lookups map List.length repeat]. now rewrite app_nil_r.
  - cbn [lookups map List.length repeat].
    assert (Hfirst : from_catalog {| catalog := None; io_log := log |} id
                     = (inl (ReadError default_catalog),
                        {| catalog := None;
                           io_log := (log ++ [TableRead default_catalog false])%list |})).
    { unfold from_catalog, read_catalog. cbn [catalog io_log]. now rewrite Hread. }
    rewrite Hfirst, IH, <- app_assoc. reflexivity.
Qed.

(** X21: [read_catalog] does not look at the cache.  When the reader
    delivers, the table read replaces whatever was cached, and a lookup
    that follows searches the new table without reading again; when the
    reader raises, [read_catalog] raises and the cache is as before. *)
Theorem read_catalog_replaces_cache (cls : ClassState F A) (fname id : string) :
  match Table_read fname with
  | Some t =>
      fst (read_catalog cls fname) = None /\
      from_catalog (snd (read_catalog cls fname)) id
      = (search t id,
         {| catalog := Some t;
            io_log := (io_log cls ++ [TableRead fname true])%list |})
  | None =>
      fst (read_catalog cls fname) = Some (ReadError fname) /\
      catalog (snd (read_catalog cls fname)) = catalog cls
  end.
Proof.
  unfold read_catalog.
  destruct (Table_read fname) as [t |]; cbn [fst snd catalog].
  - split; [reflexivity | apply from_catalog_search].
  - split; reflexivity.
Qed.

End CatalogMore.

Lemma from_catalog_first_match_witness :
  let twice := ([j1944_row] ++ crab_row :: [crab_row; j1944_row])%list in
  fst (from_catalog (ar := Qc_arith) (rd := sample_reader)
         {| catalog := Some twice; io_log := [] |} "J0534+2200")
  = inr (from_catalog_row (ar := Qc_arith) crab_row (Some "J0534+2200")).
Proof.
  intro twice. unfold twice.
  rewrite (from_catalog_first_match (ar := Qc_arith) (rd := sample_reader)
             [j1944_row] [crab_row; j1944_row] crab_row [] "J0534+2200").
  - reflexivity.
  - intros r [<- | []]. reflexivity.
  - reflexivity.
Defined.

Lemma from_catalog_result_witness :
  name (from_catalog_row (ar := Qc_arith) crab_row (Some "J0534+2200")) = "J0534+2200" /\
  NAME crab_row = "B0531+21".
Proof.
  split; [| reflexivity].
  apply (from_catalog_result (ar := Qc_arith) (rd := sample_reader)
           sample_catalog [] "J0534+2200"
           (from_catalog_row (ar := Qc_arith) crab_row (Some "J0534+2200"))).
  reflexivity.
Defined.

Lemma lookups_load_then_search_witness :
  fst (lookups (ar := Qc_arith) (rd := sample_reader)
         {| catalog := None; io_log := [] |} ["J1944+2236"; "Vela"])
  = [search (ar := Qc_arith) sample_catalog "J1944+2236";
     inl (ValueError "Pulsar 'Vela' not found")].
Proof.
  rewrite (lookups_load_then_search (ar := Qc_arith) (rd := sample_reader)
             sample_catalog [] "J1944+2236" ["Vela"]).
  - reflexivity.
  - reflexivity.
Defined.

Lemma lookups_reader_fails_witness :
  io_log (snd (lookups (ar := Qc_arith)
                 (rd := {| Table_read := fun _ : string => @None (Table Qc string) |})
                 {| catalog := None; io_log := [] |} ["Crab"; "Vela"]))
  = [TableRead default_catalog false; TableRead default_catalog false].
Proof.
  rewrite (lookups_reader_fails (ar := Qc_arith)
             (rd := {| Table_read := fun _ : string => @None (Table Qc string) |})
             [] ["Crab"; "Vela"]).
  - reflexivity.
  - reflexivity.
Defined.

End PulsarProps.
